(** * vray-zmq-wrapper: the ZmqClient worker, the control frame codec and the
      serializer stream, embedded from [include/zmq_wrapper.hpp] and
      [include/zmq_serializer.hpp].

    Conventions of the embedding.
    - An [int] is a [Z]; its object representation is four bytes in the host
      byte order, two's complement.
    - A [zmq::message_t] is the list of its bytes.
    - The environment (libzmq socket, clock, peer, the threads that call the
      facade) answers every call from the history of the calls made so far;
      the worker is a computation in a state-and-exception monad over the
      client object and that history. Other threads act on the client object
      while the worker waits for [startServing] and between two iterations of
      its steady loop.
    - [printf] is recorded by its format string only. *)

From Stdlib Require Import ZArith List Bool Lia.
From Stdlib Require Import Strings.Byte Strings.String.
From stdpp Require Import base list.
Import ListNotations.

#[local] Open Scope Z_scope.

(** ** Object representations *)

Definition byte_of_Z (z : Z) : byte :=
  match Byte.of_N (Z.to_N (z mod 256)) with
  | Some b => b
  | None => x00
  end.

Definition Z_of_byte (b : byte) : Z := Z.of_N (Byte.to_N b).

(** The [n] low-order bytes of [z], least significant first. *)
Fixpoint le_bytes (n : nat) (z : Z) : list byte :=
  match n with
  | O => []
  | S k => byte_of_Z z :: le_bytes k (z / 256)
  end.

Fixpoint le_value (bs : list byte) : Z :=
  match bs with
  | [] => 0
  | b :: rest => Z_of_byte b + 256 * le_value rest
  end.

Inductive byte_order := LittleEndian | BigEndian.

(** The platform and build the code is compiled for. *)
Class Platform := {
  host_order : byte_order;
  sizeof_size_t : nat;          (* 4 or 8 *)
  ticks_per_ms : Z;             (* period of high_resolution_clock *)
  debug_build : bool;           (* _DEBUG *)
}.

(** What [memcpy] from an [n]-byte scalar yields. *)
Definition store (o : byte_order) (n : nat) (z : Z) : list byte :=
  match o with
  | LittleEndian => le_bytes n z
  | BigEndian => rev (le_bytes n z)
  end.

(** What [memcpy] into an unsigned scalar of [length bs] bytes yields. *)
Definition load (o : byte_order) (bs : list byte) : Z :=
  match o with
  | LittleEndian => le_value bs
  | BigEndian => le_value (rev bs)
  end.

Definition sizeof_int : nat := 4.
Definition is_int (z : Z) : Prop := - 2 ^ 31 <= z <= 2 ^ 31 - 1.
Definition to_signed (u : Z) : Z := if u <? 2 ^ 31 then u else u - 2 ^ 32.

Definition store_int `{Platform} (v : Z) : list byte := store host_order sizeof_int v.
Definition load_int `{Platform} (bs : list byte) : Z := to_signed (load host_order bs).

Definition message_t := list byte.

(** ** zmq_wrapper.hpp: constants *)

Definition ZMQ_PROTOCOL_VERSION : Z := 1013.

Definition CLIENT_PING_INTERVAL : Z := 1000.
Definition SOCKET_IO_TIMEOUT : Z := 100.

Definition EXPORTER_TIMEOUT `{Platform} : Z :=
  if debug_build then Z.shiftl 1 29 else CLIENT_PING_INTERVAL * 5.
Definition HEARBEAT_TIMEOUT `{Platform} : Z :=
  if debug_build then Z.shiftl 1 29 else CLIENT_PING_INTERVAL * 2.

Definition MAX_CONSEQ_MESSAGES : nat := 10.

Module ClientType.
Inductive t : Set := None | Exporter | Heartbeat.
Definition value (c : t) : Z :=
  match c with
  | None => 0
  | Exporter => 1
  | Heartbeat => 2
  end.
Definition eqb (a b : t) : bool := value a =? value b.
End ClientType.

Module ControlMessage.
Inductive t : Set :=
| DATA_MSG
| EXPORTER_CONNECT_MSG
| HEARTBEAT_CONNECT_MSG
| RENDERER_CREATE_MSG
| HEARTBEAT_CREATE_MSG
| PING_MSG
| PONG_MSG
| STOP_MSG.
Definition value (c : t) : Z :=
  match c with
  | DATA_MSG => 0
  | EXPORTER_CONNECT_MSG => 1000
  | HEARTBEAT_CONNECT_MSG => 1001
  | RENDERER_CREATE_MSG => 2000
  | HEARTBEAT_CREATE_MSG => 2001
  | PING_MSG => 3000
  | PONG_MSG => 3001
  | STOP_MSG => 4000
  end.
End ControlMessage.

(** ** ControlFrame *)

(** The enum fields hold whatever [int] the bytes copied into them spell. *)
Record ControlFrame := {
  version : Z;
  type : Z;
  control : Z;
}.

Definition sizeof_ControlFrame : nat := 12.

(** [ControlFrame(ClientType type, ControlMessage ctrl)] *)
Definition ControlFrame_new (t : ClientType.t) (ctrl : ControlMessage.t) : ControlFrame :=
  {| version := ZMQ_PROTOCOL_VERSION;
     type := ClientType.value t;
     control := ControlMessage.value ctrl |}.

(** The object representation of a frame: three ints, no padding. *)
Definition ControlFrame_bytes `{Platform} (f : ControlFrame) : list byte :=
  store_int (version f) ++ store_int (type f) ++ store_int (control f).

(** [ControlFrame(const zmq::message_t & msg)]; [indeterminate] is what the
    object's storage holds before the constructor runs. *)
Definition ControlFrame_of_message `{Platform}
    (indeterminate : ControlFrame) (msg : message_t) : ControlFrame :=
  if negb (length msg =? sizeof_ControlFrame)%nat then
    {| version := -1;
       type := type indeterminate;
       control := control indeterminate |}
  else
    {| version := load_int (take 4 msg);
       type := load_int (take 4 (drop 4 msg));
       control := load_int (take 4 (drop 8 msg)) |}.

(** [explicit operator bool()] *)
Definition ControlFrame_bool (f : ControlFrame) : bool :=
  version f =? ZMQ_PROTOCOL_VERSION.

(** [ControlFrame::make] *)
Definition make `{Platform} (t : ClientType.t) (ctrl : ControlMessage.t) : message_t :=
  let frame := ControlFrame_new t ctrl in
  take sizeof_ControlFrame (ControlFrame_bytes frame).

(** [ControlFrame::make()] with its default arguments. *)
Definition make_default `{Platform} : message_t :=
  make ClientType.Exporter ControlMessage.DATA_MSG.

(** ** zmq_serializer.hpp *)

Record SerializerStream := { stream : list byte }.

(** [SerializerStream::write]: [data] is the storage [data] points to. *)
Definition write (data : list byte) (size : nat) (s : SerializerStream) : SerializerStream :=
  if (size =? 0)%nat then s
  else {| stream := stream s ++ take size data |}.

Definition getSize (s : SerializerStream) : nat := length (stream s).

(** [operator<<] for [size_t], an instance of the generic template. *)
Definition put_size_t `{Platform} (value : Z) (s : SerializerStream) : SerializerStream :=
  write (store host_order sizeof_size_t value) sizeof_size_t s.

(** [std::string::c_str()]: the characters followed by the terminator. *)
Definition c_str (value : string) : list byte := list_byte_of_string value ++ [x00].

(** [operator<<(SerializerStream &, const std::string &)] *)
Definition put_string `{Platform} (value : string) (s : SerializerStream) : SerializerStream :=
  let size := String.length value in
  let s := put_size_t (Z.of_nat size) s in
  write (c_str value) size s.

(** ** The client object *)

Record ZmqClient := {
  clientType : ClientType.t;
  callback : option nat;              (* the registered function, by name *)
  messageQue : list message_t;
  startServing : bool;
  isWorking : bool;
  errorConnect : bool;
  flushOnExit : bool;
  serverStop : bool;
}.

Definition set_callback (v : option nat) (c : ZmqClient) : ZmqClient :=
  {| clientType := clientType c; callback := v; messageQue := messageQue c;
     startServing := startServing c; isWorking := isWorking c;
     errorConnect := errorConnect c; flushOnExit := flushOnExit c;
     serverStop := serverStop c |}.

Definition set_messageQue (v : list message_t) (c : ZmqClient) : ZmqClient :=
  {| clientType := clientType c; callback := callback c; messageQue := v;
     startServing := startServing c; isWorking := isWorking c;
     errorConnect := errorConnect c; flushOnExit := flushOnExit c;
     serverStop := serverStop c |}.

Definition set_startServing (v : bool) (c : ZmqClient) : ZmqClient :=
  {| clientType := clientType c; callback := callback c; messageQue := messageQue c;
     startServing := v; isWorking := isWorking c;
     errorConnect := errorConnect c; flushOnExit := flushOnExit c;
     serverStop := serverStop c |}.

Definition set_isWorking (v : bool) (c : ZmqClient) : ZmqClient :=
  {| clientType := clientType c; callback := callback c; messageQue := messageQue c;
     startServing := startServing c; isWorking := v;
     errorConnect := errorConnect c; flushOnExit := flushOnExit c;
     serverStop := serverStop c |}.

Definition set_errorConnect (v : bool) (c : ZmqClient) : ZmqClient :=
  {| clientType := clientType c; callback := callback c; messageQue := messageQue c;
     startServing := startServing c; isWorking := isWorking c;
     errorConnect := v; flushOnExit := flushOnExit c;
     serverStop := serverStop c |}.

Definition set_flushOnExit (v : bool) (c : ZmqClient) : ZmqClient :=
  {| clientType := clientType c; callback := callback c; messageQue := messageQue c;
     startServing := startServing c; isWorking := isWorking c;
     errorConnect := errorConnect c; flushOnExit := v;
     serverStop := serverStop c |}.

Definition set_serverStop (v : bool) (c : ZmqClient) : ZmqClient :=
  {| clientType := clientType c; callback := callback c; messageQue := messageQue c;
     startServing := startServing c; isWorking := isWorking c;
     errorConnect := errorConnect c; flushOnExit := flushOnExit c;
     serverStop := v |}.

(** The member initialisers of [ZmqClient::ZmqClient(bool isHeartbeat)]. *)
Definition ZmqClient_init (isHeartbeat : bool) : ZmqClient :=
  {| clientType := if isHeartbeat then ClientType.Heartbeat else ClientType.Exporter;
     callback := None;
     messageQue := [];
     startServing := false;
     isWorking := true;
     errorConnect := false;
     flushOnExit := false;
     serverStop := false |}.

(** *** Facade operations that only touch the object *)

(** Both overloads of [ZmqClient::send] end in [messageQue.push_back]. *)
Definition send (message : message_t) (c : ZmqClient) : ZmqClient :=
  set_messageQue (messageQue c ++ [message]) c.

Definition setCallback (cb : option nat) (c : ZmqClient) : ZmqClient := set_callback cb c.
Definition setFlushOnExit (flag : bool) (c : ZmqClient) : ZmqClient := set_flushOnExit flag c.
Definition getFlushOnexit (c : ZmqClient) : bool := flushOnExit c.
Definition getOutstandingMessages (c : ZmqClient) : Z := Z.of_nat (length (messageQue c)).
Definition connected (c : ZmqClient) : bool := startServing c && negb (errorConnect c).
Definition good (c : ZmqClient) : bool := isWorking c.

Definition stopServer (c : ZmqClient) : ZmqClient :=
  set_isWorking false (set_serverStop true c).

(** The stores of [ZmqClient::syncStop] made under [startServingMutex]. *)
Definition syncStop_flags (c : ZmqClient) : ZmqClient :=
  set_startServing true (set_isWorking false c).

(** ** The environment *)

(** A call into libzmq either returns or throws [zmq::error_t]. *)
Inductive reply (A : Type) :=
| Returns (a : A)
| Throws.
Arguments Returns {A} a.
Arguments Throws {A}.

Definition throws {A} (r : reply A) : bool :=
  match r with
  | Returns _ => false
  | Throws => true
  end.

Inductive sockopt := ZMQ_LINGER | ZMQ_SNDTIMEO | ZMQ_RCVTIMEO | ZMQ_IDENTITY.

Inductive facade_op :=
| OpSend (message : message_t)
| OpSetCallback (cb : option nat)
| OpSetFlushOnExit (flag : bool)
| OpStopServer
| OpSyncStop
| OpConnect (addr : string).

(** What the callback of line 348 may do with the client it is handed
    ([this]) from the worker's own thread and return: [send],
    [setFlushOnExit] and [stopServer]. [setCallback] would lock
    [callbackMutex], which line 346 holds, and [syncStop] would join the
    thread it runs on; neither returns. *)
Inductive callback_op :=
| CbSend (message : message_t)
| CbSetFlushOnExit (flag : bool)
| CbStopServer.

Definition callback_call (op : callback_op) (c : ZmqClient) : ZmqClient :=
  match op with
  | CbSend message => send message c
  | CbSetFlushOnExit flag => setFlushOnExit flag c
  | CbStopServer => stopServer c
  end.

Inductive event :=
| EvSocket (r : reply unit)                          (* new zmq::socket_t(context, ZMQ_DEALER) *)
| EvSetsockopt (o : sockopt) (v : Z) (r : reply unit)
| EvConnect (addr : string) (r : reply unit)
| EvSend (m : message_t) (sndmore : bool) (r : reply bool)
| EvRecv (r : reply (bool * message_t))
| EvRcvMore (r : reply Z)                            (* getsockopt(ZMQ_RCVMORE) *)
| EvPoll (r : reply Z)                               (* revents, or the error *)
| EvClose
| EvNow (t : Z)
| EvCallback (cb : nat) (payload : message_t) (calls : list callback_op)
| EvSleep (ms : Z)
| EvPuts (line : string)
| EvFacade (ops : list facade_op).

Class Environment := {
  on_socket : list event -> reply unit;
  on_setsockopt : list event -> sockopt -> Z -> reply unit;
  on_connect : list event -> string -> reply unit;
  on_send : list event -> message_t -> bool -> reply bool;
  (** [Returns (false, _)]: the receive timed out and left the message as
      it was. *)
  on_recv : list event -> reply (bool * message_t);
  on_rcvmore : list event -> reply Z;
  on_poll : list event -> reply Z;
  on_now : list event -> Z;
  on_random : list event -> Z;                  (* std::mt19937_64's first draw *)
  on_indeterminate : list event -> ControlFrame; (* uninitialised storage *)
  on_facade : list event -> list facade_op;     (* what the other threads did *)
  (** The calls callback [cb], invoked with [payload], makes on the client
      before it returns. *)
  on_callback : list event -> nat -> message_t -> list callback_op;
}.

Record World := {
  self : ZmqClient;
  history : list event;
}.

(** A computation of the worker returns, is left by an exception, or (a loop
    of the model) is cut short by its fuel. *)
Inductive outcome (A : Type) :=
| Returned (a : A)
| Raised
| OutOfFuel.
Arguments Returned {A} a.
Arguments Raised {A}.
Arguments OutOfFuel {A}.

Definition of_reply {A} (r : reply A) : outcome A :=
  match r with
  | Returns a => Returned a
  | Throws => Raised
  end.

Definition M (A : Type) : Type := World -> outcome A * World.

Definition ret {A} (a : A) : M A := fun w => (Returned a, w).

Definition bind {A B} (m : M A) (k : A -> M B) : M B :=
  fun w =>
    match m w with
    | (Returned a, w') => k a w'
    | (Raised, w') => (Raised, w')
    | (OutOfFuel, w') => (OutOfFuel, w')
    end.

(** [try { m } catch (zmq::error_t &) { handler }] *)
Definition try_catch {A} (m : M A) (handler : M A) : M A :=
  fun w =>
    match m w with
    | (Raised, w') => handler w'
    | r => r
    end.

(** A destructor run when the scope of [m] is left, normally or not. *)
Definition at_scope_exit {A} (m : M A) (cleanup : M unit) : M A :=
  fun w =>
    match m w with
    | (OutOfFuel, w') => (OutOfFuel, w')
    | (r, w') =>
        match cleanup w' with
        | (Returned _, w'') => (r, w'')
        | (Raised, w'') => (Raised, w'')
        | (OutOfFuel, w'') => (OutOfFuel, w'')
        end
    end.

Notation "x <- m ;; k" := (bind m (fun x => k))
  (at level 100, m at next level, right associativity).
Notation "m ;;; k" := (bind m (fun _ => k))
  (at level 100, right associativity).

Definition get {A} (f : ZmqClient -> A) : M A := fun w => (Returned (f (self w)), w).

Definition modify (f : ZmqClient -> ZmqClient) : M unit :=
  fun w => (Returned tt, {| self := f (self w); history := history w |}).

Definition emit (e : event) : M unit :=
  fun w => (Returned tt, {| self := self w; history := history w ++ [e] |}).

(** Ask the environment, record the call, and return or raise as it says. *)
Definition call {A} (ask : list event -> reply A) (record : reply A -> event) : M A :=
  fun w =>
    let r := ask (history w) in
    (of_reply r, {| self := self w; history := history w ++ [record r] |}).

Definition puts (line : string) : M unit := emit (EvPuts line).
Definition printf (format : string) : M unit := emit (EvPuts format).
Definition sleep_for (ms : Z) : M unit := emit (EvSleep ms).

Section Worker.
Context `{Platform} `{Environment}.

Definition now : M Z :=
  fun w =>
    let t := on_now (history w) in
    (Returned t, {| self := self w; history := history w ++ [EvNow t] |}).

Definition indeterminate : M ControlFrame :=
  fun w => (Returned (on_indeterminate (history w)), w).

Definition new_socket : M unit := call on_socket EvSocket.

Definition setsockopt (o : sockopt) (v : Z) : M unit :=
  call (fun h => on_setsockopt h o v) (EvSetsockopt o v).

Definition socket_connect (addr : string) : M unit :=
  call (fun h => on_connect h addr) (EvConnect addr).

Definition socket_send (m : message_t) (sndmore : bool) : M bool :=
  call (fun h => on_send h m sndmore) (EvSend m sndmore).

(** [recv(&msg)] on a fresh message: its content afterwards. A receive that
    returns false leaves it empty. *)
Definition socket_recv : M (bool * message_t) :=
  r <- call on_recv EvRecv ;;
  ret (fst r, if fst r then snd r else []).

Definition getsockopt_rcvmore : M Z := call on_rcvmore EvRcvMore.

Definition poll : M Z := call on_poll EvPoll.

Definition is_close (e : event) : bool :=
  match e with EvClose => true | _ => false end.

(** [zmq::socket_t::close] does nothing on a socket already closed. *)
Definition socket_close : M unit :=
  fun w =>
    if existsb is_close (history w) then (Returned tt, w)
    else emit EvClose w.

Definition milliseconds (n : Z) : Z := n * ticks_per_ms.
Definition duration_cast_milliseconds (d : Z) : Z := Z.quot d ticks_per_ms.

Definition ZMQ_POLLIN : Z := 1.
Definition ZMQ_POLLOUT : Z := 2.

Definition emptyFrame : message_t := [].

(** Line 348: [this->callback(VRayMessage::fromZmqMessage(payloadMsg), this)].
    The callback runs on the worker's thread and is taken to return. *)
Definition invoke (cb : nat) (payload : message_t) : M unit :=
  fun w =>
    let calls := on_callback (history w) cb payload in
    (Returned tt,
     {| self := fold_left (fun c op => callback_call op c) calls (self w);
        history := history w ++ [EvCallback cb payload calls] |}).

(** [ZmqClient::connect] *)
Definition connect (addr : string) : M unit :=
  id <- (fun w => (Returned (on_random (history w) mod 2 ^ 64), w)) ;;
  setsockopt ZMQ_IDENTITY id ;;;
  try_catch
    (socket_connect addr)
    (printf "ZMQ zmq::socket_t::connect(%s) exception: %s\n" ;;;
     modify (set_errorConnect true)) ;;;
  modify (set_startServing true).

Definition facade (op : facade_op) : M unit :=
  match op with
  | OpSend message => modify (send message)
  | OpSetCallback cb => modify (setCallback cb)
  | OpSetFlushOnExit flag => modify (setFlushOnExit flag)
  | OpStopServer => modify stopServer
  | OpSyncStop => modify syncStop_flags
  | OpConnect addr => connect addr
  end.

(** An exception that leaves a facade call goes to its caller, not to the
    worker. *)
Fixpoint facade_all (ops : list facade_op) : M unit :=
  match ops with
  | [] => ret tt
  | op :: rest => try_catch (facade op) (ret tt) ;;; facade_all rest
  end.

(** The other threads take their turn. *)
Definition yield : M unit :=
  fun w =>
    let ops := on_facade (history w) in
    match ops with
    | [] => (Returned tt, w)
    | _ => (emit (EvFacade ops) ;;; facade_all ops) w
    end.

End Worker.

(** ** ZmqClient::workerThread *)

Section WorkerThread.
Context `{Platform} `{Environment}.

(** How a block of the function body is left: by falling through to the next
    statement, or by [return]. *)
Inductive flow := Next | Return.

(** Lines 207-224: the socket is created and configured. The result tells
    whether the thread goes on to wait for [startServing]. *)
Definition worker_init : M bool :=
  try_catch
    (new_socket ;;;
     setsockopt ZMQ_LINGER 0 ;;;
     setsockopt ZMQ_SNDTIMEO HEARBEAT_TIMEOUT ;;;
     ret true)
    (printf "ZMQ exception while worker initialization: %s\n" ;;;
     modify (set_isWorking false) ;;;
     ret false).

(** Lines 226-231: parked until some thread has set [startServing]. *)
Fixpoint wait_startServing (fuel : nat) : M unit :=
  started <- get startServing ;;
  if started then ret tt
  else
    match fuel with
    | O => fun w => (OutOfFuel, w)
    | S fuel' => yield ;;; wait_startServing fuel'
    end.

(** Lines 244-255 *)
Definition send_handshake : M flow :=
  try_catch
    (ct <- get clientType ;;
     (if ClientType.eqb ct ClientType.Exporter
      then socket_send (make ct ControlMessage.EXPORTER_CONNECT_MSG) true
      else socket_send (make ct ControlMessage.HEARTBEAT_CONNECT_MSG) true) ;;;
     socket_send emptyFrame false ;;;
     ret Next)
    (printf "ZMQ failed to send handshake [%s]\n" ;;;
     ret Return).

(** Lines 258-297 *)
Definition recv_handshake : M flow :=
  try_catch
    (setsockopt ZMQ_RCVTIMEO EXPORTER_TIMEOUT ;;;
     garbage <- indeterminate ;;
     controlMsg <- socket_recv ;;
     if negb (fst controlMsg) then
       puts "ZMQ server did not respond in expected timeout, stopping client!" ;;;
       ret Return
     else
       socket_recv ;;;
       let frame := ControlFrame_of_message garbage (snd controlMsg) in
       ct <- get clientType ;;
       if negb (ControlFrame_bool frame) then
         printf "ZMQ expected protocol version [%d], server speaks [%d]\n" ;;;
         ret Return
       else if negb (type frame =? ClientType.value ct) then
         puts "ZMQ server created mismatching type of worker for us!" ;;;
         ret Return
       else if ClientType.eqb ct ClientType.Exporter then
         if negb (control frame =? ControlMessage.value ControlMessage.RENDERER_CREATE_MSG) then
           puts "ZMQ server responded with different than renderer created!" ;;;
           ret Return
         else ret Next
       else
         if negb (control frame =? ControlMessage.value ControlMessage.HEARTBEAT_CREATE_MSG) then
           puts "ZMQ server responded with different than heartbeat created!" ;;;
           ret Return
         else ret Next)
    (printf "ZMQ failed to receive handshake [%s]\n" ;;;
     ret Return).

(** Lines 345-358: what is done with an accepted envelope. *)
Definition dispatch (frame : ControlFrame) (payloadMsg : message_t) : M unit :=
  if control frame =? ControlMessage.value ControlMessage.DATA_MSG then
    cb <- get callback ;;
    match cb with
    | Some f => invoke f payloadMsg
    | None => ret tt
    end
  else if control frame =? ControlMessage.value ControlMessage.PING_MSG then
    if negb (length payloadMsg =? 0)%nat
    then puts "ZMQ missing empty frame after ping"
    else ret tt
  else if control frame =? ControlMessage.value ControlMessage.PONG_MSG then
    if negb (length payloadMsg =? 0)%nat
    then puts "ZMQ missing empty frame after pong"
    else ret tt
  else ret tt.

(** Lines 321-370: the receive loop, [remaining] = MAX_CONSEQ_MESSAGES - c.
    The result is how the loop is left and the value of [lastHBRecv]. *)
Fixpoint recv_loop (remaining : nat) (lastHBRecv : Z) : M (flow * Z) :=
  match remaining with
  | O => ret (Next, lastHBRecv)
  | S remaining' =>
      working <- get isWorking ;;
      if negb working then ret (Next, lastHBRecv)
      else
        garbage <- indeterminate ;;
        received <- try_catch
                      (controlMsg <- socket_recv ;;
                       payloadMsg <- socket_recv ;;
                       ret (Some (snd controlMsg, snd payloadMsg)))
                      (printf "ZMQ failed [%s] zmq::socket_t::recv - stopping client.\n" ;;;
                       ret None) ;;
        match received with
        | None => ret (Return, lastHBRecv)
        | Some (controlMsg, payloadMsg) =>
            let frame := ControlFrame_of_message garbage controlMsg in
            ct <- get clientType ;;
            if negb (ControlFrame_bool frame) then
              printf "ZMQ expected protocol version [%d], server speaks [%d], dropping message.\n" ;;;
              recv_loop remaining' lastHBRecv
            else if negb (type frame =? ClientType.value ct) then
              puts "ZMQ server sent mismatching msg type of worker for us!" ;;;
              recv_loop remaining' lastHBRecv
            else
              lastHBRecv' <- now ;;
              dispatch frame payloadMsg ;;;
              more <- try_catch getsockopt_rcvmore
                        (printf "ZMQ failed [%s] zmq::socket_t::getsockopt.\n" ;;;
                         ret 0) ;;
              if more =? 0 then ret (Next, lastHBRecv')
              else recv_loop remaining' lastHBRecv'
        end
  end.

Definition pop_front : M unit := modify (fun c => set_messageQue (tail (messageQue c)) c).

(** Lines 436-463, [remaining] = MAX_CONSEQ_MESSAGES - c; the result is
    [didWork] and the value of [lastHBSend]. *)
Fixpoint sendout_loop (remaining : nat) (didWork : bool) (lastHBSend : Z) : M (bool * Z) :=
  match remaining with
  | O => ret (didWork, lastHBSend)
  | S remaining' =>
      que <- get messageQue ;;
      working <- get isWorking ;;
      match que with
      | [] => ret (didWork, lastHBSend)
      | msg :: _ =>
          if negb working then ret (didWork, lastHBSend)
          else
            sent <- socket_send (make ClientType.Exporter ControlMessage.DATA_MSG) true ;;
            if sent then
              socket_send msg false ;;;
              lastHBSend' <- now ;;
              pop_front ;;;
              more <- getsockopt_rcvmore ;;
              if more =? 0 then ret (true, lastHBSend')
              else sendout_loop remaining' true lastHBSend'
            else ret (true, lastHBSend)
      end
  end.

Definition workerSendoutMessages (lastHBSend : Z) : M (bool * Z) :=
  sendout_loop MAX_CONSEQ_MESSAGES false lastHBSend.

(** The values the body of the steady loop has computed when it reaches the
    liveness check. *)
Record timers := {
  t_now : Z;
  t_lastHBRecv : Z;
  t_lastHBSend : Z;
  t_didWork : bool;
}.

(** Lines 376-384: the ping, when none has gone out for a while. The result
    is [lastHBSend] and [didWork]. *)
Definition ping_if_due (now1 lastHBSend : Z) (didWork : bool) : M (Z * bool) :=
  if duration_cast_milliseconds (now1 - lastHBSend) >? CLIENT_PING_INTERVAL then
    ct <- get clientType ;;
    sent <- socket_send (make ct ControlMessage.PING_MSG) true ;;
    if sent then
      socket_send emptyFrame false ;;;
      ret (now1, true)
    else ret (lastHBSend, didWork)
  else ret (lastHBSend, didWork).

(** Lines 373-392: the writable branch; [None] when it has executed
    [return]. *)
Definition writable_branch (lastHBRecv lastHBSend : Z) (didWork : bool) : M (option timers) :=
  try_catch
    (now1 <- now ;;
     pinged <- ping_if_due now1 lastHBSend didWork ;;
     que <- get messageQue ;;
     let didWork' := snd pinged || negb (length que =? 0)%nat in
     sentout <- workerSendoutMessages (fst pinged) ;;
     ret (Some {| t_now := now1; t_lastHBRecv := lastHBRecv;
                  t_lastHBSend := snd sentout; t_didWork := didWork' |}))
    (printf "ZMQ failed [%s] zmq::socket_t::send - stopping client.\n" ;;;
     ret None).

(** Lines 308-392: one poll and the two branches; [None] when the body has
    executed [return]. *)
Definition steady_work (lastHBRecv lastHBSend : Z) : M (option timers) :=
  now0 <- now ;;
  polled <- try_catch
              (revents <- poll ;; ret (Some revents))
              (printf "ZMQ failed [%s] zmq::poll - stopping client.\n" ;;;
               ret None) ;;
  match polled with
  | None => ret None
  | Some revents =>
      readable <-
        (if negb (Z.land revents ZMQ_POLLIN =? 0)
         then r <- recv_loop MAX_CONSEQ_MESSAGES lastHBRecv ;; ret (fst r, snd r, true)
         else ret (Next, lastHBRecv, false)) ;;
      match readable with
      | (Return, _, _) => ret None
      | (Next, lastHBRecv', didWork) =>
          if negb (Z.land revents ZMQ_POLLOUT =? 0)
          then writable_branch lastHBRecv' lastHBSend didWork
          else
            ret (Some {| t_now := now0; t_lastHBRecv := lastHBRecv';
                         t_lastHBSend := lastHBSend; t_didWork := didWork |})
      end
  end.

End WorkerThread.

Section SteadyAndTeardown.
Context `{Platform} `{Environment}.

(** Lines 394-401: the liveness check and the idle sleep that end an
    iteration. [None] when the body has executed [return]. *)
Definition steady_iteration (lastHBRecv lastHBSend : Z) : M (option (Z * Z)) :=
  work <- steady_work lastHBRecv lastHBSend ;;
  match work with
  | None => ret None
  | Some t =>
      ct <- get clientType ;;
      if ClientType.eqb ct ClientType.Heartbeat
         && (duration_cast_milliseconds (t_now t - t_lastHBRecv t) >? HEARBEAT_TIMEOUT)
      then
        puts "ZMQ server unresponsive, stopping client" ;;;
        ret None
      else
        working <- get isWorking ;;
        (if negb (t_didWork t) && working then sleep_for 1 else ret tt) ;;;
        ret (Some (t_lastHBRecv t, t_lastHBSend t))
  end.

(** Lines 307-402: [while (isWorking)]. [Next] when the condition ended the
    loop, [Return] when the body returned. *)
Fixpoint steady_loop (fuel : nat) (lastHBRecv lastHBSend : Z) : M flow :=
  yield ;;;
  working <- get isWorking ;;
  if negb working then ret Next
  else
    match fuel with
    | O => fun w => (OutOfFuel, w)
    | S fuel' =>
        r <- steady_iteration lastHBRecv lastHBSend ;;
        match r with
        | None => ret Return
        | Some (lastHBRecv', lastHBSend') => steady_loop fuel' lastHBRecv' lastHBSend'
        end
    end.

(** [frontend->send(msg)] on element [c] of the queue: libzmq leaves the
    message it was handed empty once it has taken it. *)
Definition send_queued (c : nat) (msg : message_t) : M bool :=
  sent <- socket_send msg false ;;
  (if sent
   then modify (fun cl => set_messageQue (<[c := []]> (messageQue cl)) cl)
   else ret tt) ;;;
  ret sent.

(** Lines 420-427 *)
Fixpoint flush_loop (fuel : nat) (c : nat) : M unit :=
  que <- get messageQue ;;
  match que !! c with
  | None => ret tt
  | Some msg =>
      match fuel with
      | O => fun w => (OutOfFuel, w)
      | S fuel' =>
          sent <- socket_send make_default true ;;
          sent' <- (if sent then send_queued c msg else ret false) ;;
          if negb sent' then ret tt
          else flush_loop fuel' (S c)
      end
  end.

(** Lines 404-433 *)
Definition teardown : M unit :=
  stop <- get serverStop ;;
  if stop then
    try_catch
      (setsockopt ZMQ_SNDTIMEO 200 ;;;
       ct <- get clientType ;;
       socket_send (make ct ControlMessage.STOP_MSG) true ;;;
       socket_send emptyFrame false ;;;
       modify (set_serverStop false))
      (printf "ZMQ exception while stopping server: %s\n")
  else
    flush <- get flushOnExit ;;
    if flush then
      try_catch
        (setsockopt ZMQ_SNDTIMEO 200 ;;;
         que <- get messageQue ;;
         flush_loop (length que) 0 ;;;
         socket_close)
        (printf "ZMQ exception while flushing on exit: %s\n")
    else ret tt.

(** Lines 305-433: the steady loop and, unless its body returned, the
    teardown. *)
Definition loop_then_teardown (fuel : nat) (lastHBRecv lastHBSend : Z) : M unit :=
  left <- steady_loop fuel lastHBRecv lastHBSend ;;
  match left with
  | Return => ret tt
  | Next => teardown
  end.

(** Lines 299-433: from the successful handshake on. *)
Definition steady_state (fuel : nat) : M unit :=
  puts "ZMQ connected to server." ;;;
  lastHBRecv <- now ;;
  let lastHBSend := lastHBRecv - milliseconds (HEARBEAT_TIMEOUT * 2) in
  loop_then_teardown fuel lastHBRecv lastHBSend.

(** The deleter of [atScopeExit], lines 233-236. *)
Definition scope_exit : M unit :=
  socket_close ;;;
  modify (set_isWorking false).

(** Lines 233-433: what the thread does once [startServing] is set. *)
Definition serve (fuel : nat) : M unit :=
  at_scope_exit
    (err <- get errorConnect ;;
     if err then ret tt
     else
       sent <- send_handshake ;;
       match sent with
       | Return => ret tt
       | Next =>
           replied <- recv_handshake ;;
           match replied with
           | Return => ret tt
           | Next => steady_state fuel
           end
       end)
    scope_exit.

Definition workerThread (fuel : nat) : M unit :=
  socketInit <- worker_init ;;
  if socketInit then wait_startServing fuel ;;; serve fuel
  else ret tt.

(** [ZmqClient::ZmqClient(bool isHeartbeat)]: the object as the new thread
    finds it. *)
Definition ZmqClient_new (isHeartbeat : bool) : World :=
  {| self := ZmqClient_init isHeartbeat; history := [] |}.

(** ** ZmqClient::waitForMessages *)

(** The function runs on a caller's thread while the worker drains the queue:
    each turn of its loop sees the shared object and the clock as they are
    then. *)
Record snapshot := {
  seen : ZmqClient;
  seen_at : Z;
}.

Definition queue_empty (c : ZmqClient) : bool := (length (messageQue c) =? 0)%nat.

(** Lines 515-524; [None]: the loop is still turning when the snapshots end. *)
Fixpoint waitForMessages_loop (timeout waitBegin : Z) (turns : list snapshot) : option bool :=
  match turns with
  | [] => None
  | s :: rest =>
      if isWorking (seen s) then
        if queue_empty (seen s) then Some true
        else
          let timePassed := duration_cast_milliseconds (seen_at s - waitBegin) in
          if timePassed >=? timeout then Some false
          else waitForMessages_loop timeout waitBegin rest
      else Some false
  end.

Definition waitForMessages (timeout : Z) (first : ZmqClient) (waitBegin : Z)
    (turns : list snapshot) : option bool :=
  let timeout := Z.min timeout 10000 in
  if queue_empty first then Some true
  else waitForMessages_loop timeout waitBegin turns.

(** Time, in whole milliseconds, a turn of the loop finds elapsed. *)
Definition timePassed (waitBegin : Z) (s : snapshot) : Z :=
  duration_cast_milliseconds (seen_at s - waitBegin).

(** A turn that sends the loop round again. *)
Definition undecided (timeout waitBegin : Z) (s : snapshot) : Prop :=
  isWorking (seen s) = true /\
  queue_empty (seen s) = false /\
  timePassed waitBegin s < Z.min timeout 10000.

(** A turn that ends the wait. *)
Definition decisive (timeout waitBegin : Z) (s : snapshot) : Prop :=
  isWorking (seen s) = false \/
  queue_empty (seen s) = true \/
  timePassed waitBegin s >= Z.min timeout 10000.

End SteadyAndTeardown.

(** A computation that leaves the role of the client as it was. *)
Definition keeps_role {A} (m : M A) : Prop :=
  forall w r w', m w = (r, w') -> clientType (self w') = clientType (self w).

(** ** Reading a history *)

(** The parts handed to [send], each with its [ZMQ_SNDMORE] flag. *)
Fixpoint sent_parts (evs : list event) : list (message_t * bool) :=
  match evs with
  | [] => []
  | EvSend m sndmore _ :: rest => (m, sndmore) :: sent_parts rest
  | _ :: rest => sent_parts rest
  end.

(** The parts handed to [send] as the last part of a message: the payloads. *)
Fixpoint payload_sends (evs : list event) : list message_t :=
  match evs with
  | [] => []
  | EvSend m false _ :: rest => m :: payload_sends rest
  | _ :: rest => payload_sends rest
  end.

(** What the calls to [recv] brought. *)
Fixpoint received (evs : list event) : list (reply (bool * message_t)) :=
  match evs with
  | [] => []
  | EvRecv r :: rest => r :: received rest
  | _ :: rest => received rest
  end.

Definition event_throws (e : event) : bool :=
  match e with
  | EvSocket r => throws r
  | EvSetsockopt _ _ r => throws r
  | EvConnect _ r => throws r
  | EvSend _ _ r => throws r
  | EvRecv r => throws r
  | EvRcvMore r => throws r
  | EvPoll r => throws r
  | _ => false
  end.

(** The opcode lines 283-293 compare the handshake reply with. *)
Definition create_opcode (ct : ClientType.t) : ControlMessage.t :=
  match ct with
  | ClientType.Exporter => ControlMessage.RENDERER_CREATE_MSG
  | _ => ControlMessage.HEARTBEAT_CREATE_MSG
  end.

(** The reply a worker of role [ct] lets through. *)
Definition accepted_reply (ct : ClientType.t) (f : ControlFrame) : Prop :=
  version f = ZMQ_PROTOCOL_VERSION /\
  type f = ClientType.value ct /\
  control f = ControlMessage.value (create_opcode ct).




(** The STOP envelope of a worker of role [ct], as handed to [send]. *)
Definition STOP_envelope `{Platform} (ct : ClientType.t) : list (message_t * bool) :=
  [(make ct ControlMessage.STOP_MSG, true); ([], false)].

(** What C4 says of a teardown entered with [serverStop] set: it hands the
    transport exactly one STOP envelope and nothing else. *)
Definition emits_one_STOP `{Platform} `{Environment} (w : World) : Prop :=
  exists w' evs,
    teardown w = (Returned tt, w') /\
    history w' = history w ++ evs /\
    sent_parts evs = STOP_envelope (clientType (self w)).

(** ** A platform and some environments to run the model on *)

Definition x86_64_release : Platform :=
  {| host_order := LittleEndian; sizeof_size_t := 8;
     ticks_per_ms := 1000000; debug_build := false |}.

Definition zero_frame : ControlFrame := {| version := 0; type := 0; control := 0 |}.

(** A peer that takes whatever is sent and never speaks, behind a socket that
    is always writable; the clock advances one millisecond per recorded
    event. *)
Definition silent_peer : Environment :=
  {| on_socket := fun _ => Returns tt;
     on_setsockopt := fun _ _ _ => Returns tt;
     on_connect := fun _ _ => Returns tt;
     on_send := fun _ _ _ => Returns true;
     on_recv := fun _ => Returns (false, []);
     on_rcvmore := fun _ => Returns 0;
     on_poll := fun _ => Returns ZMQ_POLLOUT;
     on_now := fun h => Z.of_nat (length h) * 1000000;
     on_random := fun _ => 42;
     on_indeterminate := fun _ => zero_frame;
     on_facade := fun _ => [];
     on_callback := fun _ _ _ => [] |}.

(** The transport once its context has been terminated: every call throws. *)
Definition terminated_context : Environment :=
  {| on_socket := fun _ => Throws;
     on_setsockopt := fun _ _ _ => Throws;
     on_connect := fun _ _ => Throws;
     on_send := fun _ _ _ => Throws;
     on_recv := fun _ => Throws;
     on_rcvmore := fun _ => Throws;
     on_poll := fun _ => Throws;
     on_now := fun h => Z.of_nat (length h) * 1000000;
     on_random := fun _ => 42;
     on_indeterminate := fun _ => zero_frame;
     on_facade := fun _ => [];
     on_callback := fun _ _ _ => [] |}.

Definition hello : message_t := ["h"; "e"; "l"; "l"; "o"]%byte.
Definition world : message_t := ["w"; "o"; "r"; "l"; "d"]%byte.

(** An Exporter past its handshake with [hello] and [world] queued. *)
Definition exporter_with_two : ZmqClient :=
  send world (send hello (set_startServing true (ZmqClient_init false))).

(** The same client asked to flush on exit, at an arbitrary point of its
    history. *)
Definition flushing_exporter : World :=
  {| self := setFlushOnExit true exporter_with_two;
     history := [EvPuts "ZMQ connected to server."] |}.

(** A transport that refuses the address given to [connect]. *)
Definition bad_address : Environment :=
  {| on_socket := fun _ => Returns tt;
     on_setsockopt := fun _ _ _ => Returns tt;
     on_connect := fun _ _ => Throws;
     on_send := fun _ _ _ => Returns true;
     on_recv := fun _ => Returns (false, []);
     on_rcvmore := fun _ => Returns 0;
     on_poll := fun _ => Returns ZMQ_POLLOUT;
     on_now := fun h => Z.of_nat (length h) * 1000000;
     on_random := fun _ => 2 ^ 64 + 7;
     on_indeterminate := fun _ => zero_frame;
     on_facade := fun _ => [];
     on_callback := fun _ _ _ => [] |}.

Definition old_frame : ControlFrame := {| version := 1012; type := 1; control := 2000 |}.

(** A server that speaks an older protocol: every receive brings a frame of
    version 1012. *)
Definition old_server : Environment :=
  {| on_socket := fun _ => Returns tt;
     on_setsockopt := fun _ _ _ => Returns tt;
     on_connect := fun _ _ => Returns tt;
     on_send := fun _ _ _ => Returns true;
     on_recv := fun _ => Returns (true, @ControlFrame_bytes x86_64_release old_frame);
     on_rcvmore := fun _ => Returns 0;
     on_poll := fun _ => Returns ZMQ_POLLOUT;
     on_now := fun h => Z.of_nat (length h) * 1000000;
     on_random := fun _ => 42;
     on_indeterminate := fun _ => zero_frame;
     on_facade := fun _ => [];
     on_callback := fun _ _ _ => [] |}.

(** An Exporter that [connect] has just released from its wait. *)
Definition connected_exporter : World :=
  {| self := set_startServing true (ZmqClient_init false);
     history := [EvSetsockopt ZMQ_IDENTITY 42 (Returns tt);
                 EvConnect "tcp://localhost:5555" (Returns tt)] |}.

(** The Exporter with two payloads queued, in its steady state. *)
Definition steady_exporter : World :=
  {| self := exporter_with_two;
     history := [EvPuts "ZMQ connected to server."] |}.

(** The same after [setFlushOnExit(true)] and [stopServer()]. *)
Definition stopping_exporter : World :=
  {| self := stopServer (setFlushOnExit true exporter_with_two);
     history := [EvPuts "ZMQ connected to server."] |}.

(** A Heartbeat client in its steady state. *)
Definition steady_heartbeat : World :=
  {| self := set_startServing true (ZmqClient_init true);
     history := [EvPuts "ZMQ connected to server."] |}.

(** A server that answers the Exporter's handshake and then listens; the
    application connects, sends [hello] and [world], and later calls
    [stopServer]. *)
Definition friendly_server : Environment :=
  {| on_socket := fun _ => Returns tt;
     on_setsockopt := fun _ _ _ => Returns tt;
     on_connect := fun _ _ => Returns tt;
     on_send := fun _ _ _ => Returns true;
     on_recv := fun h =>
       match length (received h) with
       | 0%nat => Returns (true, @make x86_64_release ClientType.Exporter
                                   ControlMessage.RENDERER_CREATE_MSG)
       | 1%nat => Returns (true, [])
       | _ => Returns (false, [])
       end;
     on_rcvmore := fun _ => Returns 0;
     on_poll := fun _ => Returns ZMQ_POLLOUT;
     on_now := fun h => Z.of_nat (length h) * 1000000;
     on_random := fun _ => 42;
     on_indeterminate := fun _ => zero_frame;
     on_facade := fun h =>
       match length h with
       | 3%nat => [OpConnect "tcp://localhost:5555"; OpSend hello; OpSend world]
       | n => if (30 <=? n)%nat then [OpStopServer] else []
       end;
     on_callback := fun _ _ _ => [] |}.

(** A peer that takes control frames but whose pipe is full for payloads:
    [send] returns false on the last part of every message. *)
Definition congested_peer : Environment :=
  {| on_socket := fun _ => Returns tt;
     on_setsockopt := fun _ _ _ => Returns tt;
     on_connect := fun _ _ => Returns tt;
     on_send := fun _ _ sndmore => Returns sndmore;
     on_recv := fun _ => Returns (false, []);
     on_rcvmore := fun _ => Returns 1;
     on_poll := fun _ => Returns ZMQ_POLLOUT;
     on_now := fun h => Z.of_nat (length h) * 1000000;
     on_random := fun _ => 42;
     on_indeterminate := fun _ => zero_frame;
     on_facade := fun _ => [];
     on_callback := fun _ _ _ => [] |}.

(** ** zmq_serializer.hpp: the writers built on String *)

(** The bytes the String writer produces for [value]. *)
Definition string_encoding `{Platform} (value : string) : list byte :=
  store host_order sizeof_size_t (Z.of_nat (String.length value))
  ++ list_byte_of_string value.

(** A string whose size a [size_t] can hold. *)
Definition fits_size_t `{Platform} (value : string) : Prop :=
  Z.of_nat (String.length value) < 256 ^ Z.of_nat sizeof_size_t.

(** ** Requests to stop *)

(** [isWorking] has been cleared. *)
Definition stopped (c : ZmqClient) : Prop := isWorking c = false.

(** The calls that ask the worker to stop. *)
Definition stops (op : facade_op) : bool :=
  match op with
  | OpStopServer | OpSyncStop => true
  | _ => false
  end.

Definition callback_stops (op : callback_op) : bool :=
  match op with
  | CbStopServer => true
  | _ => false
  end.

(** An event in which the worker is asked to stop, by another thread or by
    the callback. *)
Definition asks_to_stop (e : event) : bool :=
  match e with
  | EvFacade ops => existsb stops ops
  | EvCallback _ _ calls => existsb callback_stops calls
  | _ => false
  end.

(** A computation that never sets [isWorking]: run from a state in which the
    flag is clear it leaves it clear, and when a request to stop arrives
    while it runs, the flag is clear when it ends. *)
Definition honours {A} (m : M A) : Prop :=
  forall w r w', m w = (r, w') ->
    exists evs,
      history w' = history w ++ evs /\
      (stopped (self w) \/ existsb asks_to_stop evs = true -> stopped (self w')).

(** What callbacks can have changed of a client [c] that has become [c']. *)
Definition touched_by_callbacks (c c' : ZmqClient) : Prop :=
  clientType c' = clientType c /\
  callback c' = callback c /\
  startServing c' = startServing c /\
  errorConnect c' = errorConnect c /\
  (isWorking c = false -> isWorking c' = false) /\
  (serverStop c = true -> serverStop c' = true) /\
  exists added, messageQue c' = messageQue c ++ added.

(** The invocations of the callback a history records. *)
Fixpoint callbacks (evs : list event) : list (nat * message_t) :=
  match evs with
  | [] => []
  | EvCallback cb payload _ :: rest => (cb, payload) :: callbacks rest
  | _ :: rest => callbacks rest
  end.

(** The payloads whose [send] returned, whether the transport took them or
    not: those whose [send] threw are left out. *)
Fixpoint payloads_returned (evs : list event) : list message_t :=
  match evs with
  | [] => []
  | EvSend m false (Returns _) :: rest => m :: payloads_returned rest
  | _ :: rest => payloads_returned rest
  end.

(** The DATA envelopes of a list of payloads, as handed to [send]. *)
Definition DATA_envelopes `{Platform} (payloads : list message_t) : list (message_t * bool) :=
  flat_map (fun p => [(make ClientType.Exporter ControlMessage.DATA_MSG, true); (p, false)])
    payloads.

(** The opcode lines 246-250 put in the handshake. *)
Definition connect_opcode (ct : ClientType.t) : ControlMessage.t :=
  match ct with
  | ClientType.Exporter => ControlMessage.EXPORTER_CONNECT_MSG
  | _ => ControlMessage.HEARTBEAT_CONNECT_MSG
  end.

(** A client that [syncStop] was called on before anybody called [connect]. *)
Definition stopped_before_connect : World :=
  {| self := syncStop_flags (ZmqClient_init false); history := [] |}.

(** A transport on which no socket can be created. *)
Definition no_sockets : Environment :=
  {| on_socket := fun _ => Throws;
     on_setsockopt := fun _ _ _ => Returns tt;
     on_connect := fun _ _ => Returns tt;
     on_send := fun _ _ _ => Returns true;
     on_recv := fun _ => Returns (false, []);
     on_rcvmore := fun _ => Returns 0;
     on_poll := fun _ => Returns ZMQ_POLLOUT;
     on_now := fun h => Z.of_nat (length h) * 1000000;
     on_random := fun _ => 42;
     on_indeterminate := fun _ => zero_frame;
     on_facade := fun _ => [];
     on_callback := fun _ _ _ => [] |}.

(** A server that talks to a Heartbeat worker as if it were an Exporter:
    valid frames of the wrong role. *)
Definition confused_server : Environment :=
  {| on_socket := fun _ => Returns tt;
     on_setsockopt := fun _ _ _ => Returns tt;
     on_connect := fun _ _ => Returns tt;
     on_send := fun _ _ _ => Returns true;
     on_recv := fun _ => Returns (true, @make x86_64_release ClientType.Exporter
                                          ControlMessage.DATA_MSG);
     on_rcvmore := fun _ => Returns 0;
     on_poll := fun _ => Returns ZMQ_POLLOUT;
     on_now := fun h => Z.of_nat (length h) * 1000000;
     on_random := fun _ => 42;
     on_indeterminate := fun _ => zero_frame;
     on_facade := fun _ => [];
     on_callback := fun _ _ _ => [] |}.

(** The Exporter in its steady state with callback 7 registered. *)
Definition listening_exporter : World :=
  {| self := setCallback (Some 7%nat) exporter_with_two;
     history := [EvPuts "ZMQ connected to server."] |}.

(** A server that sends one DATA envelope carrying [hello] to an Exporter
    whose callback answers every payload by sending it back and then calls
    [stopServer]. *)
Definition echo_then_stop : Environment :=
  {| on_socket := fun _ => Returns tt;
     on_setsockopt := fun _ _ _ => Returns tt;
     on_connect := fun _ _ => Returns tt;
     on_send := fun _ _ _ => Returns true;
     on_recv := fun h =>
       match length (received h) with
       | 0%nat => Returns (true, @make x86_64_release ClientType.Exporter
                                   ControlMessage.DATA_MSG)
       | 1%nat => Returns (true, hello)
       | _ => Returns (false, [])
       end;
     on_rcvmore := fun _ => Returns 0;
     on_poll := fun _ => Returns ZMQ_POLLIN;
     on_now := fun h => Z.of_nat (length h) * 1000000;
     on_random := fun _ => 42;
     on_indeterminate := fun _ => zero_frame;
     on_facade := fun _ => [];
     on_callback := fun _ _ payload => [CbSend payload; CbStopServer] |}.

(** What [syncStop] sees when the worker never sends STOP: [serverStop]
    stays set, and turn [i] comes [i] milliseconds after the wait began. *)
Definition unanswered_stop : list snapshot :=
  map (fun i => {| seen := stopServer exporter_with_two;
                   seen_at := Z.of_nat i * 1000000 |})
      (seq 0 250).

(** A transport that takes control frames and throws on every payload. *)
Definition broken_pipe : Environment :=
  {| on_socket := fun _ => Returns tt;
     on_setsockopt := fun _ _ _ => Returns tt;
     on_connect := fun _ _ => Returns tt;
     on_send := fun _ _ sndmore => if sndmore then Returns true else Throws;
     on_recv := fun _ => Returns (false, []);
     on_rcvmore := fun _ => Returns 0;
     on_poll := fun _ => Returns ZMQ_POLLOUT;
     on_now := fun h => Z.of_nat (length h) * 1000000;
     on_random := fun _ => 42;
     on_indeterminate := fun _ => zero_frame;
     on_facade := fun _ => [];
     on_callback := fun _ _ _ => [] |}.

(** A transport that accepts every part and whose [ZMQ_RCVMORE] reads 1. *)
Definition accepting_peer : Environment :=
  {| on_socket := fun _ => Returns tt;
     on_setsockopt := fun _ _ _ => Returns tt;
     on_connect := fun _ _ => Returns tt;
     on_send := fun _ _ _ => Returns true;
     on_recv := fun _ => Returns (false, []);
     on_rcvmore := fun _ => Returns 1;
     on_poll := fun _ => Returns ZMQ_POLLOUT;
     on_now := fun h => Z.of_nat (length h) * 1000000;
     on_random := fun _ => 42;
     on_indeterminate := fun _ => zero_frame;
     on_facade := fun _ => [];
     on_callback := fun _ _ _ => [] |}.

(** The Exporter of [friendly_server] at the moment the application calls
    [stopServer]: thirty idle sleeps into its steady state. *)
Definition idle_exporter : World :=
  {| self := exporter_with_two;
     history := repeat (EvSleep 1) 30 |}.

(** A socket on which nothing happens: every poll times out with no event. *)
Definition quiet_socket : Environment :=
  {| on_socket := fun _ => Returns tt;
     on_setsockopt := fun _ _ _ => Returns tt;
     on_connect := fun _ _ => Returns tt;
     on_send := fun _ _ _ => Returns true;
     on_recv := fun _ => Returns (false, []);
     on_rcvmore := fun _ => Returns 0;
     on_poll := fun _ => Returns 0;
     on_now := fun h => Z.of_nat (length h) * 1000000;
     on_random := fun _ => 42;
     on_indeterminate := fun _ => zero_frame;
     on_facade := fun _ => [];
     on_callback := fun _ _ _ => [] |}.

(** ** ZmqClient::syncStop *)

(** Lines 533-538: the grace given to the worker to send its STOP message.
    Each turn of the loop sees the shared object and the clock as they are
    then; the result is the number of 1 ms sleeps made, [None] when the loop
    is still turning when the snapshots end. *)
Fixpoint syncStop_wait `{Platform} (stopBegin : Z) (turns : list snapshot) : option nat :=
  match turns with
  | [] => None
  | s :: rest =>
      if serverStop (seen s) then
        if duration_cast_milliseconds (seen_at s - stopBegin) >? 200 then Some 0%nat
        else option_map S (syncStop_wait stopBegin rest)
      else Some 0%nat
  end.

(** Lines 531-540 *)
Definition syncStop_grace `{Platform} (first : ZmqClient) (stopBegin : Z)
    (turns : list snapshot) : option nat :=
  if serverStop first then syncStop_wait stopBegin turns else Some 0%nat.

(** A turn of the grace loop that goes on to sleep. *)
Definition still_stopping `{Platform} (stopBegin : Z) (s : snapshot) : Prop :=
  serverStop (seen s) = true /\
  duration_cast_milliseconds (seen_at s - stopBegin) <= 200.

(** ** src/zmq_wrapper.cpp: the older ZmqWrapper *)

(** Line 47: the keepalive is a message of one byte, never written. *)
Definition keepAlive (uninitialised : byte) : message_t := [uninitialised].

(** Lines 63-67: a message of one byte or none is copied into a fresh
    message of two bytes, which takes its place; [fresh] is what
    [zmq::message_t wrapper(2)] holds before the copy. *)
Definition wrap_small (fresh : list byte) (msg : message_t) : message_t :=
  if (length msg <=? 1)%nat then msg ++ drop (length msg) fresh else msg.

(** Lines 97-101 *)
Definition propagateMessage (VRAY_ZMQ_PING : bool) (incoming : message_t) : bool :=
  if VRAY_ZMQ_PING then (1 <? length incoming)%nat else true.

(** * Properties *)

(** ** Object representations *)

Lemma Z_of_byte_of_Z z : Z_of_byte (byte_of_Z z) = z mod 256.
Proof.
  unfold byte_of_Z, Z_of_byte.
  assert (Hr : 0 <= z mod 256 < 256) by (apply Z.mod_pos_bound; lia).
  destruct (Byte.of_N (Z.to_N (z mod 256))) as [b|] eqn:E.
  - apply Byte.to_of_N in E. rewrite E. lia.
  - apply Byte.of_N_None_iff in E. lia.
Qed.

Lemma length_le_bytes n z : length (le_bytes n z) = n.
Proof.
  revert z. induction n as [|n IH]; intros z; simpl; [reflexivity|].
  now rewrite IH.
Qed.

Lemma length_store o n z : length (store o n z) = n.
Proof. destruct o; simpl; [|rewrite length_rev]; apply length_le_bytes. Qed.

Lemma le_value_le_bytes n z : le_value (le_bytes n z) = z mod 256 ^ Z.of_nat n.
Proof.
  revert z. induction n as [|n IH]; intros z.
  - simpl. now rewrite Z.mod_1_r.
  - cbn [le_bytes le_value]. rewrite IH, Z_of_byte_of_Z.
    rewrite Nat2Z.inj_succ, Z.pow_succ_r by lia.
    rewrite (Z.rem_mul_r z 256 (256 ^ Z.of_nat n)) by lia. reflexivity.
Qed.

Lemma load_store o n z : load o (store o n z) = z mod 256 ^ Z.of_nat n.
Proof.
  destruct o; simpl; [|rewrite rev_involutive]; apply le_value_le_bytes.
Qed.

Section Codec.
Context `{Platform}.

Lemma length_store_int v : length (store_int v) = 4%nat.
Proof. apply length_store. Qed.

Lemma load_store_int v : is_int v -> load_int (store_int v) = v.
Proof.
  unfold is_int, load_int, store_int, sizeof_int, to_signed.
  intros Hv. rewrite load_store.
  change (256 ^ Z.of_nat 4) with (2 ^ 32).
  destruct (Z_lt_le_dec v 0) as [Hneg|Hpos].
  - replace (v mod 2 ^ 32) with (v + 2 ^ 32).
    + destruct (Z.ltb_spec (v + 2 ^ 32) (2 ^ 31)); lia.
    + apply Z.mod_unique with (q := -1); lia.
  - rewrite Z.mod_small by lia.
    destruct (Z.ltb_spec v (2 ^ 31)); lia.
Qed.

Lemma length_ControlFrame_bytes f : length (ControlFrame_bytes f) = sizeof_ControlFrame.
Proof.
  unfold ControlFrame_bytes. rewrite !length_app, !length_store_int. reflexivity.
Qed.

Lemma make_bytes t c : make t c = ControlFrame_bytes (ControlFrame_new t c).
Proof.
  unfold make. apply firstn_all2. rewrite length_ControlFrame_bytes. lia.
Qed.

Lemma length_make t c : length (make t c) = sizeof_ControlFrame.
Proof. rewrite make_bytes. apply length_ControlFrame_bytes. Qed.

(** Copying a frame out and in again gives the frame back. *)
Lemma ControlFrame_of_bytes garbage f :
  is_int (version f) -> is_int (type f) -> is_int (control f) ->
  ControlFrame_of_message garbage (ControlFrame_bytes f) = f.
Proof.
  intros Hv Ht Hc. unfold ControlFrame_of_message.
  rewrite length_ControlFrame_bytes. simpl negb. cbv iota.
  unfold ControlFrame_bytes.
  assert (E1 : forall a b : list byte, length a = 4%nat -> take 4 (a ++ b) = a).
  { intros a b Ha. rewrite <- Ha. rewrite take_app_length. reflexivity. }
  assert (E2 : forall a b : list byte, length a = 4%nat -> drop 4 (a ++ b) = b).
  { intros a b Ha. rewrite <- Ha. apply drop_app_length. }
  assert (E3 : forall a b c : list byte,
             length a = 4%nat -> length b = 4%nat -> drop 8 (a ++ b ++ c) = c).
  { intros a b c Ha Hb. rewrite app_assoc. 
    replace 8%nat with (length (a ++ b)) by (rewrite length_app; lia).
    apply drop_app_length. }
  rewrite E1, E2, E1, E3 by apply length_store_int.
  rewrite <- (app_nil_r (store_int (control f))) at 1.
  rewrite E1 by apply length_store_int.
  rewrite !load_store_int by assumption.
  destruct f; reflexivity.
Qed.

Lemma is_int_ClientType t : is_int (ClientType.value t).
Proof. unfold is_int. destruct t; simpl; lia. Qed.

Lemma is_int_ControlMessage c : is_int (ControlMessage.value c).
Proof. unfold is_int. destruct c; simpl; lia. Qed.

Lemma decode_make garbage t c :
  ControlFrame_of_message garbage (make t c) = ControlFrame_new t c.
Proof.
  rewrite make_bytes. apply ControlFrame_of_bytes; simpl.
  - unfold is_int, ZMQ_PROTOCOL_VERSION. lia.
  - apply is_int_ClientType.
  - apply is_int_ControlMessage.
Qed.

(** C6: encoding a role and an opcode yields exactly [sizeof(ControlFrame)]
    bytes, and the frame decoded from those bytes is valid and carries the
    same role and the same opcode. *)
Theorem make_roundtrip (r : ClientType.t) (c : ControlMessage.t) (garbage : ControlFrame) :
  length (make r c) = sizeof_ControlFrame /\
  ControlFrame_bool (ControlFrame_of_message garbage (make r c)) = true /\
  type (ControlFrame_of_message garbage (make r c)) = ClientType.value r /\
  control (ControlFrame_of_message garbage (make r c)) = ControlMessage.value c.
Proof.
  split; [apply length_make|].
  rewrite decode_make. repeat split.
Qed.

End Codec.

(** ** The serializer stream *)

Lemma length_list_byte_of_string (s : string) :
  length (list_byte_of_string s) = String.length s.
Proof.
  unfold list_byte_of_string.
  induction s as [|a s IH]; simpl; [reflexivity|].
  now rewrite IH.
Qed.

(** [write] appends the first [size] bytes of the storage, whatever [size]. *)
Lemma write_appends data size s :
  stream (write data size s) = stream s ++ take size data.
Proof.
  unfold write. destruct (Nat.eqb_spec size 0) as [->|_]; simpl.
  - now rewrite app_nil_r.
  - reflexivity.
Qed.

Section Serializer.
Context `{Platform}.

(** C9: the String writer appends [sizeof(size_t) + s.size()] bytes: the
    length as a platform word, then the characters of the string and nothing
    else; the bytes written before are left as they were. *)
Theorem put_string_appends (value : string) (s : SerializerStream) :
  stream (put_string value s) =
    stream s
    ++ store host_order sizeof_size_t (Z.of_nat (String.length value))
    ++ list_byte_of_string value /\
  getSize (put_string value s) = (getSize s + sizeof_size_t + String.length value)%nat /\
  take (getSize s) (stream (put_string value s)) = stream s /\
  load host_order (take sizeof_size_t (drop (getSize s) (stream (put_string value s)))) =
    Z.of_nat (String.length value) mod 256 ^ Z.of_nat sizeof_size_t /\
  drop (getSize s + sizeof_size_t) (stream (put_string value s)) = list_byte_of_string value.
Proof.
  assert (E : stream (put_string value s) =
              stream s
              ++ store host_order sizeof_size_t (Z.of_nat (String.length value))
              ++ list_byte_of_string value).
  { unfold put_string, put_size_t, c_str. rewrite !write_appends.
    rewrite <- app_assoc. f_equal. f_equal.
    - apply firstn_all2. rewrite length_store. lia.
    - rewrite <- length_list_byte_of_string. apply take_app_length. }
  unfold getSize. rewrite E. repeat split.
  - rewrite !length_app, length_store, length_list_byte_of_string. lia.
  - apply take_app_length.
  - rewrite drop_app_length.
    rewrite <- (length_store host_order sizeof_size_t (Z.of_nat (String.length value))) at 1.
    rewrite take_app_length. apply load_store.
  - rewrite app_assoc.
    rewrite <- (length_store host_order sizeof_size_t (Z.of_nat (String.length value))) at 1.
    rewrite <- length_app. apply drop_app_length.
Qed.

End Serializer.

(** ** waitForMessages *)

Section WaitForMessages.
Context `{Platform}.

Lemma waitForMessages_loop_skip timeout waitBegin before rest :
  Forall (undecided timeout waitBegin) before ->
  waitForMessages_loop (Z.min timeout 10000) waitBegin (before ++ rest) =
  waitForMessages_loop (Z.min timeout 10000) waitBegin rest.
Proof.
  induction 1 as [|s before (Hw & Hq & Ht) _ IH]; [reflexivity|].
  simpl. rewrite Hw, Hq.
  unfold timePassed in Ht.
  destruct (Z.geb_spec (duration_cast_milliseconds (seen_at s - waitBegin))
              (Z.min timeout 10000)); [lia|exact IH].
Qed.

Lemma waitForMessages_loop_decisive timeout waitBegin s rest :
  decisive timeout waitBegin s ->
  waitForMessages_loop (Z.min timeout 10000) waitBegin (s :: rest) =
  Some (isWorking (seen s) && queue_empty (seen s)).
Proof.
  unfold decisive, timePassed. intros Hd. simpl.
  destruct (isWorking (seen s)); [|reflexivity].
  destruct (queue_empty (seen s)); [reflexivity|].
  destruct (Z.geb_spec (duration_cast_milliseconds (seen_at s - waitBegin))
              (Z.min timeout 10000)); [reflexivity|].
  destruct Hd as [Hd|[Hd|Hd]]; try discriminate. lia.
Qed.

Lemma waitForMessages_loop_returns timeout waitBegin turns :
  Exists (decisive timeout waitBegin) turns ->
  waitForMessages_loop (Z.min timeout 10000) waitBegin turns <> None.
Proof.
  induction turns as [|s turns IH]; intros Hex.
  - inversion Hex.
  - simpl.
    destruct (isWorking (seen s)) eqn:Hw; [|discriminate].
    destruct (queue_empty (seen s)) eqn:Hq; [discriminate|].
    destruct (Z.geb_spec (duration_cast_milliseconds (seen_at s - waitBegin))
                (Z.min timeout 10000)) as [Hge|Hlt]; [discriminate|].
    apply IH. inversion Hex as [? ? Hd|? ? Hd]; subst; [|exact Hd].
    unfold decisive, timePassed in Hd.
    destruct Hd as [Hd|[Hd|Hd]]; congruence || lia.
Qed.

(** C7: the timeout counts for at most 10000 ms; a queue found empty, at the
    first look or at a later turn, makes the function return true; it returns
    false at the first turn that finds the worker gone, or the clamped
    timeout elapsed with the queue still not empty; and it does return once
    such a turn comes. *)
Theorem waitForMessages_result (timeout : Z) (first : ZmqClient) (waitBegin : Z)
    (before : list snapshot) (s : snapshot) (after turns : list snapshot) :
  waitForMessages timeout first waitBegin turns =
    waitForMessages (Z.min timeout 10000) first waitBegin turns /\
  (queue_empty first = true ->
   waitForMessages timeout first waitBegin turns = Some true) /\
  (queue_empty first = false ->
   Forall (undecided timeout waitBegin) before ->
   (isWorking (seen s) = true -> queue_empty (seen s) = true ->
    waitForMessages timeout first waitBegin (before ++ s :: after) = Some true) /\
   (isWorking (seen s) = true -> queue_empty (seen s) = false ->
    timePassed waitBegin s >= Z.min timeout 10000 ->
    waitForMessages timeout first waitBegin (before ++ s :: after) = Some false) /\
   (isWorking (seen s) = false ->
    waitForMessages timeout first waitBegin (before ++ s :: after) = Some false)) /\
  (Exists (decisive timeout waitBegin) turns ->
   waitForMessages timeout first waitBegin turns <> None).
Proof.
  split; [|split; [|split]].
  - unfold waitForMessages. rewrite Z.min_l with (n := Z.min timeout 10000) by lia.
    reflexivity.
  - intros He. unfold waitForMessages. now rewrite He.
  - intros Hne Hbefore. unfold waitForMessages. rewrite Hne.
    rewrite (waitForMessages_loop_skip _ _ _ _ Hbefore).
    repeat split.
    + intros Hw Hq. rewrite waitForMessages_loop_decisive.
      * now rewrite Hw, Hq.
      * right; left; exact Hq.
    + intros Hw Hq Ht. rewrite waitForMessages_loop_decisive.
      * now rewrite Hw, Hq.
      * right; right; exact Ht.
    + intros Hw. rewrite waitForMessages_loop_decisive.
      * now rewrite Hw.
      * left; exact Hw.
  - intros Hex. unfold waitForMessages.
    destruct (queue_empty first); [discriminate|].
    now apply waitForMessages_loop_returns.
Qed.

End WaitForMessages.

(** Asked to wait 20 s with a queue that never drains, the caller gets false
    at the turn that finds 10 s elapsed. *)
Lemma waitForMessages_result_witness :
  @waitForMessages x86_64_release 20000 exporter_with_two 0
    [{| seen := exporter_with_two; seen_at := 100 * 1000000 |};
     {| seen := exporter_with_two; seen_at := 10000 * 1000000 |}] = Some false.
Proof.
  destruct (@waitForMessages_result x86_64_release 20000 exporter_with_two 0
              [{| seen := exporter_with_two; seen_at := 100 * 1000000 |}]
              {| seen := exporter_with_two; seen_at := 10000 * 1000000 |} [] [])
    as (_ & _ & Hlater & _).
  destruct (Hlater eq_refl) as (_ & Htimeout & _).
  - repeat constructor.
  - apply Htimeout; [reflexivity | reflexivity | vm_compute; discriminate].
Defined.

(** ** The worker: how computations run *)

Lemma payload_sends_app a b : payload_sends (a ++ b) = payload_sends a ++ payload_sends b.
Proof.
  induction a as [|e a IH]; [reflexivity|].
  destruct e; simpl; try exact IH. destruct sndmore; simpl; [exact IH|]. now rewrite IH.
Qed.

Lemma sent_parts_app a b : sent_parts (a ++ b) = sent_parts a ++ sent_parts b.
Proof.
  induction a as [|e a IH]; [reflexivity|].
  destruct e; simpl; try exact IH. now rewrite IH.
Qed.

(** Unfold the monad and the primitives, then project the worlds built. *)
Tactic Notation "run" :=
  cbv [bind ret try_catch at_scope_exit get modify emit call puts printf sleep_for
       socket_send socket_recv setsockopt getsockopt_rcvmore poll now indeterminate
       send_queued pop_front of_reply new_socket socket_connect];
  cbn [self history fst snd negb].
Tactic Notation "run" "in" hyp(H) :=
  cbv [bind ret try_catch at_scope_exit get modify emit call puts printf sleep_for
       socket_send socket_recv setsockopt getsockopt_rcvmore poll now indeterminate
       send_queued pop_front of_reply new_socket socket_connect] in H;
  cbn [self history fst snd negb] in H.

Section Flush.
Context `{Platform} `{Environment}.

Lemma flush_loop_spec fuel : forall c w,
  (length (messageQue (self w)) - c <= fuel)%nat ->
  exists r w' evs k,
    flush_loop fuel c w = (r, w') /\
    (r = Returned tt \/ r = Raised) /\
    history w' = history w ++ evs /\
    length (messageQue (self w')) = length (messageQue (self w)) /\
    payload_sends evs = take k (drop c (messageQue (self w))).
Proof.
  induction fuel as [|fuel IH]; intros c w Hfuel.
  - simpl. run.
    destruct (messageQue (self w) !! c) as [msg|] eqn:Hc.
    + apply lookup_lt_Some in Hc. lia.
    + exists (Returned tt), w, [], 0%nat. rewrite app_nil_r. auto.
  - simpl. run.
    destruct (messageQue (self w) !! c) as [msg|] eqn:Hc.
    2:{ exists (Returned tt), w, [], 0%nat. rewrite app_nil_r. auto. }
    pose proof (drop_S _ _ _ Hc) as Hdrop.
    destruct (on_send (history w) make_default true) as [[|]|] eqn:Hctl; run.
    + (* the control frame is taken *)
      match goal with |- context [on_send ?h msg false] =>
        destruct (on_send h msg false) as [[|]|] eqn:Hpay end; run.
      * (* the payload too: on to the next element *)
        cbn [negb].
        match goal with |- context [flush_loop fuel (S c) ?w1] =>
          destruct (IH (S c) w1) as (r & w' & evs & k & Hrun & Hr & Hh & Hlen & Hp) end.
        { cbn [self messageQue set_messageQue]. rewrite length_insert.
          apply lookup_lt_Some in Hc. lia. }
        cbn [self history messageQue set_messageQue] in Hh, Hlen, Hp.
        rewrite length_insert in Hlen.
        rewrite drop_insert_lt in Hp by lia.
        exists r, w', (EvSend make_default true (Returns true)
                       :: EvSend msg false (Returns true) :: evs), (S k).
        rewrite Hrun, Hh, <- !app_assoc. simpl. rewrite Hp, Hdrop.
        auto.
      * eexists _, _, [_; _], 1%nat. rewrite <- app_assoc. simpl.
        rewrite Hdrop. simpl. rewrite take_0. auto.
      * eexists _, _, [_; _], 1%nat. rewrite <- app_assoc. simpl.
        rewrite Hdrop. simpl. rewrite take_0. auto.
    + eexists _, _, [_], 0%nat. simpl. auto.
    + eexists _, _, [_], 0%nat. simpl. auto.
Qed.

Lemma socket_close_spec w :
  exists evs, socket_close w = (Returned tt, {| self := self w; history := history w ++ evs |}) /\
              sent_parts evs = [] /\ payload_sends evs = [].
Proof.
  unfold socket_close. destruct (existsb is_close (history w)).
  - exists []. rewrite app_nil_r. destruct w; auto.
  - exists [EvClose]. auto.
Qed.

(** C10: with [flushOnExit] set and [serverStop] clear, the teardown hands
    payloads of the queue to the transport in index order, each at most
    once, and pops none: the queue is as long afterwards as it was before,
    and so is what [getOutstandingMessages] reports. *)
Theorem flush_never_pops (w : World) :
  serverStop (self w) = false ->
  flushOnExit (self w) = true ->
  exists w' evs k,
    teardown w = (Returned tt, w') /\
    history w' = history w ++ evs /\
    payload_sends evs = take k (messageQue (self w)) /\
    length (messageQue (self w')) = length (messageQue (self w)) /\
    getOutstandingMessages (self w') = getOutstandingMessages (self w).
Proof.
  intros Hstop Hflush. unfold teardown, getOutstandingMessages. run.
  rewrite Hstop, Hflush.
  destruct (on_setsockopt (history w) ZMQ_SNDTIMEO 200) as [[]|] eqn:Hopt; run.
  - match goal with |- context [flush_loop _ 0 ?w1] =>
      destruct (flush_loop_spec (length (messageQue (self w))) 0 w1)
        as (r & w' & evs & k & Hrun & Hr & Hh & Hlen & Hp) end.
    { cbn [self]. lia. }
    cbn [self history] in *. rewrite Hrun. rewrite drop_0 in Hp.
    destruct Hr as [-> | ->].
    + destruct (socket_close_spec w') as (evs' & Hclose & _ & Hp').
      rewrite Hclose. eexists _, (_ :: evs ++ evs'), k. split; [reflexivity|].
      cbn [self history]. split; [rewrite Hh, <- !app_assoc; reflexivity|].
      simpl. rewrite payload_sends_app, Hp, Hp', app_nil_r, Hlen. auto.
    + eexists _, (_ :: evs ++ [_]), k. split; [reflexivity|].
      cbn [self history]. split; [rewrite Hh, <- !app_assoc; reflexivity|].
      simpl. rewrite payload_sends_app, Hp. simpl. rewrite app_nil_r, Hlen. auto.
  - eexists _, [_; _], 0%nat. rewrite <- app_assoc. simpl. auto.
Qed.

End Flush.

Lemma flush_never_pops_witness :
  exists w' evs k,
    @teardown x86_64_release silent_peer flushing_exporter = (Returned tt, w') /\
    history w' = history flushing_exporter ++ evs /\
    payload_sends evs = take k (messageQue (self flushing_exporter)) /\
    length (messageQue (self w')) = length (messageQue (self flushing_exporter)) /\
    getOutstandingMessages (self w') = getOutstandingMessages (self flushing_exporter).
Proof.
  apply (@flush_never_pops x86_64_release silent_peer flushing_exporter); reflexivity.
Defined.

(** ** connect *)

Section Connect.
Context `{Platform} `{Environment}.

(** C8: [connect] sets an identity drawn at random among the 64-bit values,
    then attempts the transport connect; [errorConnect] is set exactly when
    that attempt throws; [startServing] is set either way, which lets the
    parked worker go on; and once [connect] has returned, [connected()] holds
    exactly when [errorConnect] is not set. *)
Theorem connect_sets_flags (addr : string) (w w' : World) :
  connect addr w = (Returned tt, w') ->
  let id := on_random (history w) mod 2 ^ 64 in
  let r := on_connect (history w ++ [EvSetsockopt ZMQ_IDENTITY id (Returns tt)]) addr in
  0 <= id < 2 ^ 64 /\
  history w' =
    history w
    ++ EvSetsockopt ZMQ_IDENTITY id (Returns tt)
    :: EvConnect addr r
    :: (if throws r
        then [EvPuts "ZMQ zmq::socket_t::connect(%s) exception: %s\n"]
        else []) /\
  errorConnect (self w') = errorConnect (self w) || throws r /\
  (errorConnect (self w) = false -> (errorConnect (self w') = true <-> r = Throws)) /\
  startServing (self w') = true /\
  (forall fuel, wait_startServing fuel w' = (Returned tt, w')) /\
  (connected (self w') = true <-> errorConnect (self w') = false).
Proof.
  intros Hrun id r.
  assert (Hid : 0 <= id < 2 ^ 64) by (apply Z.mod_pos_bound; lia).
  unfold connect in Hrun. run in Hrun. fold id in Hrun.
  destruct (on_setsockopt (history w) ZMQ_IDENTITY id) as [[]|] eqn:Hopt;
    run in Hrun; [|discriminate].
  fold r in Hrun.
  assert (Hwait : forall fuel w0, startServing (self w0) = true ->
                                  wait_startServing fuel w0 = (Returned tt, w0)).
  { intros fuel w0 Hs. destruct fuel; simpl; run; rewrite Hs; reflexivity. }
  destruct r as [[]|] eqn:Hr; run in Hrun; injection Hrun as <-; cbn [self history throws].
  - rewrite orb_false_r.
    split; [exact Hid|]. split; [now rewrite <- app_assoc|].
    split; [reflexivity|].
    split; [intros E; cbn; rewrite E; split; discriminate|].
    split; [reflexivity|]. split; [intros fuel; now apply Hwait|].
    unfold connected. cbn. destruct (errorConnect (self w)); cbn; split; congruence.
  - rewrite orb_true_r.
    split; [exact Hid|]. split; [now rewrite <- !app_assoc|].
    split; [reflexivity|]. split; [intros _; split; reflexivity|].
    split; [reflexivity|]. split; [intros fuel; now apply Hwait|].
    unfold connected. cbn. split; discriminate.
Qed.

End Connect.

Lemma connect_sets_flags_witness :
  exists w',
    @connect bad_address "tcp://localhost:5555"%string (ZmqClient_new false) = (Returned tt, w') /\
    errorConnect (self w') = true /\
    startServing (self w') = true /\
    connected (self w') = false.
Proof.
  destruct (@connect_sets_flags bad_address "tcp://localhost:5555"%string
              (ZmqClient_new false) _ eq_refl) as (_ & _ & He & _ & Hs & _ & _).
  eexists. split; [reflexivity|].
  split; [exact He|]. split; [exact Hs|]. reflexivity.
Defined.

(** ** The handshake *)

Section Handshake.
Context `{Platform} `{Environment}.

Lemma ControlFrame_bool_true f :
  ControlFrame_bool f = true <-> version f = ZMQ_PROTOCOL_VERSION.
Proof. unfold ControlFrame_bool. apply Z.eqb_eq. Qed.

Lemma decode_wrong_length garbage msg :
  length msg <> sizeof_ControlFrame ->
  version (ControlFrame_of_message garbage msg) = -1.
Proof.
  intros Hlen. unfold ControlFrame_of_message.
  destruct (Nat.eqb_spec (length msg) sizeof_ControlFrame); [contradiction|reflexivity].
Qed.

Lemma decode_full_length garbage garbage' msg :
  length msg = sizeof_ControlFrame ->
  ControlFrame_of_message garbage msg = ControlFrame_of_message garbage' msg.
Proof.
  intros Hlen. unfold ControlFrame_of_message. now rewrite Hlen.
Qed.

Lemma valid_full_length garbage msg :
  ControlFrame_bool (ControlFrame_of_message garbage msg) = true ->
  length msg = sizeof_ControlFrame.
Proof.
  intros Hv. apply ControlFrame_bool_true in Hv.
  destruct (Nat.eq_dec (length msg) sizeof_ControlFrame) as [E|E]; [exact E|].
  rewrite decode_wrong_length in Hv by exact E. discriminate.
Qed.

Lemma recv_handshake_cases w :
  exists r evs,
    recv_handshake w = (Returned r, {| self := self w; history := history w ++ evs |}) /\
    sent_parts evs = [] /\
    match r with
    | Next =>
        exists controlMsg second,
          received evs = [Returns (true, controlMsg); Returns second] /\
          forall garbage,
            accepted_reply (clientType (self w)) (ControlFrame_of_message garbage controlMsg)
    | Return =>
        forall controlMsg second,
          received evs = [Returns (true, controlMsg); Returns second] ->
          exists garbage,
            ~ accepted_reply (clientType (self w)) (ControlFrame_of_message garbage controlMsg)
    end.
Proof.
  unfold recv_handshake. run.
  destruct (on_setsockopt (history w) ZMQ_RCVTIMEO EXPORTER_TIMEOUT) as [[]|]; run.
  2:{ exists Return. eexists [_; _]. rewrite <- app_assoc.
      split; [reflexivity|]. split; [reflexivity|]. discriminate. }
  set (h1 := history w ++ [EvSetsockopt ZMQ_RCVTIMEO EXPORTER_TIMEOUT (Returns ())]).
  destruct (on_recv h1) as [[[|] m1]|]; run.
  - (* the control message has come *)
    match goal with |- context [on_recv ?h] => destruct (on_recv h) as [second|] end; run.
    + set (g := on_indeterminate h1).
      destruct (ControlFrame_bool (ControlFrame_of_message g m1)) eqn:Hv; run; cbn [negb].
      2:{ exists Return. eexists [_; _; _; _]. subst h1. rewrite <- !app_assoc.
          split; [reflexivity|]. split; [reflexivity|].
          intros c s E. injection E as <- _. exists g. intros (Hver & _).
          apply ControlFrame_bool_true in Hver. congruence. }
      destruct (Z.eqb_spec (type (ControlFrame_of_message g m1))
                  (ClientType.value (clientType (self w)))) as [Ht|Ht]; run; cbn [negb].
      2:{ exists Return. eexists [_; _; _; _]. subst h1. rewrite <- !app_assoc.
          split; [reflexivity|]. split; [reflexivity|].
          intros c s E. injection E as <- _. exists g. intros (_ & Hty & _). congruence. }
      assert (Hlen := valid_full_length _ _ Hv).
      apply ControlFrame_bool_true in Hv.
      destruct (clientType (self w)) eqn:Hct; cbn [ClientType.eqb ClientType.value Z.eqb Pos.eqb];
        match goal with |- context [control ?f =? ?v] =>
          destruct (Z.eqb_spec (control f) v) as [Hc|Hc] end; run; cbn [negb].
      all: try (exists Next; eexists [_; _; _]; subst h1; rewrite <- !app_assoc;
                split; [reflexivity|]; split; [reflexivity|];
                exists m1, second; split; [reflexivity|];
                intros g'; rewrite (decode_full_length g' g) by exact Hlen;
                repeat split; assumption).
      all: exists Return; eexists [_; _; _; _]; subst h1; rewrite <- !app_assoc;
           (split; [reflexivity|]); (split; [reflexivity|]);
           intros c s E; injection E as <- _; exists g; intros (_ & _ & Hop);
           exact (Hc Hop).
    + exists Return. eexists [_; _; _; _]. subst h1. rewrite <- !app_assoc.
      split; [reflexivity|]. split; [reflexivity|]. discriminate.
  - exists Return. eexists [_; _; _]. subst h1. rewrite <- !app_assoc.
    split; [reflexivity|]. split; [reflexivity|]. discriminate.
  - exists Return. eexists [_; _; _]. subst h1. rewrite <- !app_assoc.
    split; [reflexivity|]. split; [reflexivity|]. discriminate.
Qed.

Lemma scope_exit_spec w :
  exists evs,
    scope_exit w =
      (Returned tt, {| self := set_isWorking false (self w); history := history w ++ evs |}) /\
    sent_parts evs = [].
Proof.
  unfold scope_exit. run.
  destruct (socket_close_spec w) as (evs & -> & Hs & _).
  exists evs. auto.
Qed.

(** Whatever the body did, the worker leaves with [isWorking] cleared. *)
Lemma at_scope_exit_clears {A} (body : M A) w r w' :
  at_scope_exit body scope_exit w = (r, w') ->
  r <> OutOfFuel ->
  isWorking (self w') = false.
Proof.
  unfold at_scope_exit. destruct (body w) as [[a| |] w1]; cbv beta iota;
    try (destruct (scope_exit_spec w1) as (evs & -> & _));
    intros E; injection E as <- <-; intros Hr; try reflexivity; contradiction.
Qed.

Lemma serve_after_handshake fuel w0 w r w' :
  errorConnect (self w0) = false ->
  send_handshake w0 = (Returned Next, w) ->
  recv_handshake w = (Returned r, w') ->
  serve fuel w0 =
    match r with
    | Next => at_scope_exit (steady_state fuel) scope_exit w'
    | Return => at_scope_exit (ret tt) scope_exit w'
    end.
Proof.
  intros He Hs Hr. unfold serve, at_scope_exit, bind, get. rewrite He, Hs, Hr.
  destruct r; reflexivity.
Qed.

(** C1: the handshake lets the worker into the steady state only on a reply
    whose frame has version 1013, the worker's own role and the create
    opcode of that role; a timeout or any other reply sends the worker
    straight to its exit, where [isWorking] is cleared. *)
Theorem handshake_gate (fuel : nat) (w0 w : World) :
  errorConnect (self w0) = false ->
  send_handshake w0 = (Returned Next, w) ->
  exists r evs,
    let w' := {| self := self w; history := history w ++ evs |} in
    recv_handshake w = (Returned r, w') /\
    (r = Next <->
     exists controlMsg second,
       received evs = [Returns (true, controlMsg); Returns second] /\
       forall garbage,
         accepted_reply (clientType (self w)) (ControlFrame_of_message garbage controlMsg)) /\
    (forall m rest, received evs = Returns (false, m) :: rest -> r = Return) /\
    (forall controlMsg second garbage,
       received evs = [Returns (true, controlMsg); Returns second] ->
       ~ accepted_reply (clientType (self w)) (ControlFrame_of_message garbage controlMsg) ->
       r = Return) /\
    match r with
    | Next => serve fuel w0 = at_scope_exit (steady_state fuel) scope_exit w'
    | Return =>
        exists evs',
          serve fuel w0 =
            (Returned tt, {| self := set_isWorking false (self w);
                             history := history w' ++ evs' |}) /\
          sent_parts evs' = [] /\
          good (set_isWorking false (self w)) = false
    end.
Proof.
  intros He Hs.
  destruct (recv_handshake_cases w) as (r & evs & Hrun & _ & Hcase).
  exists r, evs. cbv zeta. split; [exact Hrun|].
  assert (Hiff : r = Next <->
            exists controlMsg second,
              received evs = [Returns (true, controlMsg); Returns second] /\
              forall garbage,
                accepted_reply (clientType (self w))
                  (ControlFrame_of_message garbage controlMsg)).
  { destruct r; split; auto; try discriminate.
    intros (c & s & Hrecv & Hacc).
    destruct (Hcase c s Hrecv) as (g & Hno). destruct Hno. apply Hacc. }
  split; [exact Hiff|]. split; [|split].
  - intros m rest Hrecv. destruct r; [|reflexivity].
    destruct Hcase as (c & s & Hrecv' & _). congruence.
  - intros c s g Hrecv Hno. destruct r; [|reflexivity].
    destruct Hcase as (c' & s' & Hrecv' & Hacc).
    rewrite Hrecv in Hrecv'. injection Hrecv' as <- <-. destruct Hno. apply Hacc.
  - rewrite (serve_after_handshake fuel w0 w r _ He Hs Hrun).
    destruct r; [reflexivity|].
    unfold at_scope_exit, ret.
    match goal with |- context [scope_exit ?w1] =>
      destruct (scope_exit_spec w1) as (evs' & -> & Hsent) end.
    exists evs'. auto.
Qed.

End Handshake.

Lemma handshake_gate_witness :
  exists w',
    @serve x86_64_release old_server 3 connected_exporter = (Returned tt, w') /\
    isWorking (self w') = false.
Proof.
  destruct (@handshake_gate x86_64_release old_server 3 connected_exporter _ eq_refl eq_refl)
    as (r & evs & Hrun & _ & _ & _ & Hserve).
  cbv zeta in Hrun, Hserve.
  destruct r.
  - vm_compute in Hrun. discriminate Hrun.
  - destruct Hserve as (evs' & -> & _ & Hgood). eexists. split; [reflexivity|]. exact Hgood.
Defined.

(** ** The version gate *)

Section VersionGate.
Context `{Platform} `{Environment}.

Lemma ControlFrame_bool_false f :
  version f <> ZMQ_PROTOCOL_VERSION -> ControlFrame_bool f = false.
Proof. unfold ControlFrame_bool. apply Z.eqb_neq. Qed.

Lemma recv_loop_drops_invalid n lastHBRecv w c p :
  isWorking (self w) = true ->
  on_recv (history w) = Returns c ->
  on_recv (history w ++ [EvRecv (Returns c)]) = Returns p ->
  version (ControlFrame_of_message (on_indeterminate (history w))
             (if fst c then snd c else [])) <> ZMQ_PROTOCOL_VERSION ->
  recv_loop (S n) lastHBRecv w =
  recv_loop n lastHBRecv
    {| self := self w;
       history :=
         history w
         ++ [EvRecv (Returns c); EvRecv (Returns p);
             EvPuts "ZMQ expected protocol version [%d], server speaks [%d], dropping message.\n"] |}.
Proof.
  intros Hw Hc Hp Hv. cbn [recv_loop]. run. rewrite Hw. run. rewrite Hc. run.
  rewrite Hp. run.
  rewrite (ControlFrame_bool_false _ Hv). run. rewrite <- !app_assoc. reflexivity.
Qed.

(** C3: a frame whose version is not 1013 is invalid, and so is any frame
    decoded from a message that is not [sizeof(ControlFrame)] bytes long,
    whose version is -1. In the steady state the envelope of such a frame is
    dropped (no callback, no liveness update, nothing changed but the log)
    and the receive loop goes on to its next turn; in the handshake it makes
    the worker leave, with [isWorking] cleared. *)
Theorem version_gate :
  (forall f, version f <> ZMQ_PROTOCOL_VERSION -> ControlFrame_bool f = false) /\
  (forall garbage msg,
     length msg <> sizeof_ControlFrame ->
     version (ControlFrame_of_message garbage msg) = -1 /\
     ControlFrame_bool (ControlFrame_of_message garbage msg) = false) /\
  (forall n lastHBRecv w c p,
     isWorking (self w) = true ->
     on_recv (history w) = Returns c ->
     on_recv (history w ++ [EvRecv (Returns c)]) = Returns p ->
     version (ControlFrame_of_message (on_indeterminate (history w))
                (if fst c then snd c else [])) <> ZMQ_PROTOCOL_VERSION ->
     recv_loop (S n) lastHBRecv w =
     recv_loop n lastHBRecv
       {| self := self w;
          history :=
            history w
            ++ [EvRecv (Returns c); EvRecv (Returns p);
                EvPuts "ZMQ expected protocol version [%d], server speaks [%d], dropping message.\n"] |}) /\
  (forall fuel w0 w r w' controlMsg second garbage,
     errorConnect (self w0) = false ->
     send_handshake w0 = (Returned Next, w) ->
     recv_handshake w = (r, w') ->
     received (drop (length (history w)) (history w')) =
       [Returns (true, controlMsg); Returns second] ->
     version (ControlFrame_of_message garbage controlMsg) <> ZMQ_PROTOCOL_VERSION ->
     r = Returned Return /\
     exists w'',
       serve fuel w0 = (Returned tt, w'') /\
       good (self w'') = false /\
       sent_parts (history w'') = sent_parts (history w')).
Proof.
  split; [exact ControlFrame_bool_false|]. split; [|split].
  - intros garbage msg Hlen.
    pose proof (decode_wrong_length garbage msg Hlen) as Hv.
    split; [exact Hv|]. apply ControlFrame_bool_false. rewrite Hv. discriminate.
  - exact recv_loop_drops_invalid.
  - intros fuel w0 w r w' c s g He Hs Hrun Hrecv Hv.
    destruct (recv_handshake_cases w) as (r0 & evs & Hrun0 & _ & Hcase).
    rewrite Hrun0 in Hrun. injection Hrun as <- <-.
    cbn [history] in Hrecv. rewrite drop_app_length in Hrecv.
    destruct r0.
    + destruct Hcase as (c' & s' & Hrecv' & Hacc).
      rewrite Hrecv in Hrecv'. injection Hrecv' as <- <-.
      destruct (Hacc g) as (Hver & _). contradiction.
    + split; [reflexivity|].
      rewrite (serve_after_handshake fuel w0 w Return _ He Hs Hrun0).
      unfold at_scope_exit, ret.
      match goal with |- context [scope_exit ?w1] =>
        destruct (scope_exit_spec w1) as (evs' & -> & Hsent) end.
      eexists. split; [reflexivity|]. split; [reflexivity|].
      cbn [history]. now rewrite sent_parts_app, Hsent, app_nil_r.
Qed.

End VersionGate.

Lemma version_gate_witness :
  @recv_loop x86_64_release old_server 2 0
    {| self := self connected_exporter; history := [EvPuts "ZMQ connected to server."] |} =
  @recv_loop x86_64_release old_server 1 0
    {| self := self connected_exporter;
       history :=
         [EvPuts "ZMQ connected to server.";
          EvRecv (Returns (true, @ControlFrame_bytes x86_64_release old_frame));
          EvRecv (Returns (true, @ControlFrame_bytes x86_64_release old_frame));
          EvPuts "ZMQ expected protocol version [%d], server speaks [%d], dropping message.\n"] |}.
Proof.
  destruct (@version_gate x86_64_release old_server) as (_ & _ & Hsteady & _).
  apply (Hsteady 1%nat 0
           {| self := self connected_exporter; history := [EvPuts "ZMQ connected to server."] |});
    try reflexivity.
  vm_compute. discriminate.
Defined.

(** ** Stop precedence *)

Section Stop.
Context `{Platform} `{Environment}.

Lemma make_STOP_is_not_DATA ct :
  make ct ControlMessage.STOP_MSG <> make ClientType.Exporter ControlMessage.DATA_MSG.
Proof.
  intros E. apply (f_equal (ControlFrame_of_message zero_frame)) in E.
  rewrite !decode_make in E. discriminate.
Qed.

(** C4, amended: entered with [serverStop] set, the teardown hands the
    transport the STOP envelope once, and all of it unless a transport call
    throws; it hands over no DATA frame and no queued payload, the queue is
    left as it was, whatever [flushOnExit] says; and the exit that follows
    sends nothing. *)
Theorem stop_precedence (w : World) :
  serverStop (self w) = true ->
  exists w' evs,
    teardown w = (Returned tt, w') /\
    history w' = history w ++ evs /\
    messageQue (self w') = messageQue (self w) /\
    (exists n, sent_parts evs = take n (STOP_envelope (clientType (self w)))) /\
    ~ In (make ClientType.Exporter ControlMessage.DATA_MSG, true) (sent_parts evs) /\
    (existsb event_throws evs = false ->
     sent_parts evs = STOP_envelope (clientType (self w)) /\
     serverStop (self w') = false) /\
    exists evs',
      scope_exit w' =
        (Returned tt, {| self := set_isWorking false (self w');
                         history := history w' ++ evs' |}) /\
      sent_parts evs' = [].
Proof.
  intros Hstop.
  assert (Hno : forall n,
            ~ In (make ClientType.Exporter ControlMessage.DATA_MSG, true)
                 (take n (STOP_envelope (clientType (self w))))).
  { intros n Hin. apply list_elem_of_In, elem_of_take in Hin as (i & Hi & _).
    destruct i as [|[|i]]; simpl in Hi; try discriminate.
    injection Hi as Hi. now apply make_STOP_is_not_DATA in Hi. }
  unfold teardown. run. rewrite Hstop.
  destruct (on_setsockopt (history w) ZMQ_SNDTIMEO 200) as [[]|] eqn:Hopt; run.
  2:{ eexists _, [_; _]. rewrite <- app_assoc. split; [reflexivity|].
      cbn [self history]. split; [reflexivity|]. split; [reflexivity|].
      split; [exists 0%nat; reflexivity|]. split; [exact (Hno 0%nat)|].
      split; [discriminate|]. apply scope_exit_spec. }
  match goal with |- context [on_send ?h ?m true] =>
    destruct (on_send h m true) as [sent|] eqn:Hctl end; run.
  2:{ eexists _, [_; _; _]. rewrite <- !app_assoc. split; [reflexivity|].
      cbn [self history]. split; [reflexivity|]. split; [reflexivity|].
      split; [exists 1%nat; reflexivity|]. split; [exact (Hno 1%nat)|].
      split; [discriminate|]. apply scope_exit_spec. }
  match goal with |- context [on_send ?h emptyFrame false] =>
    destruct (on_send h emptyFrame false) as [sent'|] eqn:Hpay end; run.
  2:{ eexists _, [_; _; _; _]. rewrite <- !app_assoc. split; [reflexivity|].
      cbn [self history]. split; [reflexivity|]. split; [reflexivity|].
      split; [exists 2%nat; reflexivity|]. split; [exact (Hno 2%nat)|].
      split; [discriminate|]. apply scope_exit_spec. }
  eexists _, [_; _; _]. rewrite <- !app_assoc. split; [reflexivity|].
  cbn [self history]. split; [reflexivity|]. split; [reflexivity|].
  split; [exists 2%nat; reflexivity|]. split; [exact (Hno 2%nat)|].
  split; [intros _; split; reflexivity|]. apply scope_exit_spec.
Qed.

End Stop.

Lemma stop_precedence_witness :
  @emits_one_STOP x86_64_release silent_peer stopping_exporter.
Proof.
  destruct (@stop_precedence x86_64_release silent_peer stopping_exporter eq_refl)
    as (w' & evs & Hrun & Hh & _ & _ & _ & Hone & _).
  exists w', evs. split; [exact Hrun|]. split; [exact Hh|].
  apply Hone.
  vm_compute in Hrun. injection Hrun as <-.
  apply (f_equal (drop 1)) in Hh. cbn in Hh. rewrite drop_0 in Hh. subst evs. reflexivity.
Defined.

(** C4 as stated fails when the context has been terminated under the
    worker: the teardown catches the error and no STOP envelope leaves. *)
Lemma stop_not_emitted_on_terminated_context :
  serverStop (self stopping_exporter) = true /\
  ~ @emits_one_STOP x86_64_release terminated_context stopping_exporter.
Proof.
  split; [reflexivity|].
  intros (w' & evs & Hrun & Hh & Hsent).
  vm_compute in Hrun. injection Hrun as <-.
  apply (f_equal (drop 1)) in Hh. cbn in Hh. rewrite drop_0 in Hh. subst evs.
  discriminate Hsent.
Qed.

(** ** The drain of the outbound queue *)

Section Drain.
Context `{Platform} `{Environment}.

(** [send] enqueues at the back. *)
Lemma send_enqueues_last p c : messageQue (send p c) = messageQue c ++ [p].
Proof. reflexivity. Qed.


End Drain.

(** C2, at an input where the code departs from it: two payloads queued,
    every send accepted, [ZMQ_RCVMORE] reading 0. One writable iteration
    emits the first payload only and leaves the second queued, although no
    send has failed and the batch limit of 10 is far. *)
Theorem sendout_stops_after_one :
  @workerSendoutMessages x86_64_release silent_peer 0 steady_exporter =
  (Returned (true, 3000000),
   {| self := set_messageQue [world] exporter_with_two;
      history :=
        [EvPuts "ZMQ connected to server.";
         EvSend (@make x86_64_release ClientType.Exporter ControlMessage.DATA_MSG)
           true (Returns true);
         EvSend hello false (Returns true);
         EvNow 3000000;
         EvRcvMore (Returns 0)] |}).
Proof. vm_compute. reflexivity. Qed.

(** The same function loses a payload whose own send is refused: only the
    result of sending the control frame is looked at before [pop_front]. *)
Example sendout_pops_unsent_payloads :
  exists r w',
    @workerSendoutMessages x86_64_release congested_peer 0 steady_exporter = (Returned r, w') /\
    messageQue (self w') = [] /\
    payload_sends (history w') = [hello; world] /\
    Forall (fun e => match e with EvSend _ false r => r = Returns false | _ => True end)
      (history w').
Proof. eexists _, _. vm_compute. repeat constructor. Qed.

(** ** Every iteration ends *)

Section Totality.
Context `{Platform} `{Environment}.







(** However its body is left, the worker clears [isWorking] on its way out. *)
Lemma serve_clears_isWorking fuel w r w' :
  serve fuel w = (r, w') ->
  r <> OutOfFuel ->
  good (self w') = false.
Proof. unfold serve, good. apply at_scope_exit_clears. Qed.

End Totality.

(** ** The role of a client never changes *)

Section Role.
Context `{Platform} `{Environment}.

Lemma keeps_role_ret {A} (a : A) : keeps_role (ret a).
Proof. intros w r w' E. injection E as _ <-. reflexivity. Qed.



Lemma keeps_role_get {A} (f : ZmqClient -> A) : keeps_role (get f).
Proof. intros w r w' E. injection E as _ <-. reflexivity. Qed.


Lemma keeps_role_emit e : keeps_role (emit e).
Proof. intros w r w' E. injection E as _ <-. reflexivity. Qed.

Lemma keeps_role_call {A} (ask : list event -> reply A) record : keeps_role (call ask record).
Proof. intros w r w' E. injection E as _ <-. reflexivity. Qed.

Lemma keeps_role_now : keeps_role now.
Proof. intros w r w' E. injection E as _ <-. reflexivity. Qed.

Lemma keeps_role_indeterminate : keeps_role indeterminate.
Proof. intros w r w' E. injection E as _ <-. reflexivity. Qed.

Lemma keeps_role_socket_close : keeps_role socket_close.
Proof.
  intros w r w' E. unfold socket_close in E.
  destruct (existsb is_close (history w)); injection E as _ <-; reflexivity.
Qed.

Lemma keeps_role_out_of_fuel {A} : keeps_role (fun w => (@OutOfFuel A, w)).
Proof. intros w r w' E. injection E as _ <-. reflexivity. Qed.

End Role.

Create HintDb role.

#[local] Hint Resolve keeps_role_ret keeps_role_get keeps_role_emit keeps_role_call
  keeps_role_now keeps_role_indeterminate keeps_role_socket_close
  keeps_role_out_of_fuel : role.


(** What the calls of a callback can change of the client: the queue, by
    appending; [flushOnExit]; and the two flags of [stopServer]. *)
Lemma touched_by_callbacks_refl c : touched_by_callbacks c c.
Proof. repeat split; auto. exists []. now rewrite app_nil_r. Qed.

Lemma touched_by_callbacks_trans c1 c2 c3 :
  touched_by_callbacks c1 c2 -> touched_by_callbacks c2 c3 -> touched_by_callbacks c1 c3.
Proof.
  intros (Ht & Hcb & Hs & He & Hw & Hstop & a1 & Hq)
         (Ht' & Hcb' & Hs' & He' & Hw' & Hstop' & a2 & Hq').
  repeat split; try congruence; auto.
  exists (a1 ++ a2). now rewrite Hq', Hq, app_assoc.
Qed.

Lemma callback_call_touches op c : touched_by_callbacks c (callback_call op c).
Proof.
  destruct op; cbn; repeat split; auto.
  - exists [message]. reflexivity.
  - exists []. now rewrite app_nil_r.
  - exists []. now rewrite app_nil_r.
Qed.

Lemma callback_calls_fields (calls : list callback_op) : forall c,
  touched_by_callbacks c (fold_left (fun c op => callback_call op c) calls c).
Proof.
  induction calls as [|op calls IH]; intros c; cbn [fold_left].
  - apply touched_by_callbacks_refl.
  - eapply touched_by_callbacks_trans; [apply callback_call_touches | apply IH].
Qed.

Lemma callback_calls_stop (calls : list callback_op) : forall c,
  existsb callback_stops calls = true ->
  isWorking (fold_left (fun c op => callback_call op c) calls c) = false.
Proof.
  induction calls as [|op calls IH]; intros c Hstop; [discriminate|].
  cbn [fold_left existsb] in *. apply orb_true_iff in Hstop as [Hop | Hrest].
  - destruct op; try discriminate.
    apply (callback_calls_fields calls (callback_call CbStopServer c)). reflexivity.
  - apply IH, Hrest.
Qed.

Section RoleOfTheWorker.
Context `{Platform} `{Environment}.












End RoleOfTheWorker.

(** ** Liveness of the peer *)

Section Liveness.
Context `{Platform} `{Environment}.













End Liveness.


(** ** A whole session *)

(** Construction, [connect], handshake, two payloads, [stopServer]: what the
    worker hands to the transport from its first call to its last, one
    payload per writable iteration. *)
Example exporter_session :
  exists w',
    @workerThread x86_64_release friendly_server 10 (ZmqClient_new false) = (Returned tt, w') /\
    good (self w') = false /\
    sent_parts (history w') =
      [(@make x86_64_release ClientType.Exporter ControlMessage.EXPORTER_CONNECT_MSG, true);
       ([], false);
       (@make x86_64_release ClientType.Exporter ControlMessage.PING_MSG, true);
       ([], false);
       (@make x86_64_release ClientType.Exporter ControlMessage.DATA_MSG, true);
       (hello, false);
       (@make x86_64_release ClientType.Exporter ControlMessage.DATA_MSG, true);
       (world, false);
       (@make x86_64_release ClientType.Exporter ControlMessage.STOP_MSG, true);
       ([], false)] /\
    last (history w') = Some EvClose.
Proof. eexists. vm_compute. auto. Qed.

(** * Further properties of the code *)

(** ** The control frame codec, the other way round *)

Lemma byte_of_Z_of_byte b : byte_of_Z (Z_of_byte b) = b.
Proof.
  unfold byte_of_Z, Z_of_byte.
  pose proof (Byte.to_N_bounded b) as Hb.
  rewrite Z.mod_small by lia. rewrite N2Z.id. now rewrite Byte.of_to_N.
Qed.

Lemma byte_of_Z_mod z : byte_of_Z (z mod 256) = byte_of_Z z.
Proof. unfold byte_of_Z. now rewrite Z.mod_mod by lia. Qed.

Lemma le_bytes_le_value bs : le_bytes (length bs) (le_value bs) = bs.
Proof.
  induction bs as [|b bs IH]; [reflexivity|].
  cbn [length le_bytes le_value].
  assert (Hb : 0 <= Z_of_byte b < 256).
  { unfold Z_of_byte. pose proof (Byte.to_N_bounded b). lia. }
  replace (Z_of_byte b + 256 * le_value bs) with (Z_of_byte b + le_value bs * 256) by lia.
  f_equal.
  - rewrite <- byte_of_Z_mod, Z.mod_add by lia.
    rewrite Z.mod_small by exact Hb. apply byte_of_Z_of_byte.
  - rewrite Z.div_add by lia. rewrite (Z.div_small (Z_of_byte b)) by exact Hb. exact IH.
Qed.

Lemma le_bytes_mod n z : le_bytes n (z mod 256 ^ Z.of_nat n) = le_bytes n z.
Proof.
  rewrite <- (le_value_le_bytes n z).
  rewrite <- (length_le_bytes n z) at 1. apply le_bytes_le_value.
Qed.

Lemma store_load o bs : store o (length bs) (load o bs) = bs.
Proof.
  destruct o; simpl.
  - apply le_bytes_le_value.
  - rewrite <- (length_rev bs), le_bytes_le_value. apply rev_involutive.
Qed.

Lemma store_mod o n z : store o n (z mod 256 ^ Z.of_nat n) = store o n z.
Proof. destruct o; simpl; now rewrite le_bytes_mod. Qed.

Section CodecBack.
Context `{Platform}.

Lemma store_load_int bs : length bs = 4%nat -> store_int (load_int bs) = bs.
Proof.
  intros Hlen. unfold store_int, load_int, to_signed, sizeof_int.
  assert (E : store host_order 4 (load host_order bs) = bs).
  { rewrite <- Hlen. apply store_load. }
  destruct (load host_order bs <? 2 ^ 31); [exact E|].
  rewrite <- (store_mod host_order 4 (load host_order bs - 2 ^ 32)).
  replace ((load host_order bs - 2 ^ 32) mod 256 ^ Z.of_nat 4)
    with (load host_order bs mod 256 ^ Z.of_nat 4).
  - rewrite store_mod. exact E.
  - change (256 ^ Z.of_nat 4) with (2 ^ 32).
    replace (load host_order bs - 2 ^ 32) with (load host_order bs + (-1) * 2 ^ 32) by lia.
    symmetry. apply Z.mod_add. lia.
Qed.

(** X1: a message of [sizeof(ControlFrame)] bytes copied into a frame and the
    frame copied out again give the message back: the frame keeps every bit
    the peer sent, also those that spell no enumerator. *)
Theorem frame_bytes_roundtrip (garbage : ControlFrame) (msg : message_t) :
  length msg = sizeof_ControlFrame ->
  ControlFrame_bytes (ControlFrame_of_message garbage msg) = msg.
Proof.
  intros Hlen. unfold ControlFrame_of_message, ControlFrame_bytes.
  rewrite Hlen. cbn [Nat.eqb negb version type control].
  change ((sizeof_ControlFrame =? sizeof_ControlFrame)%nat) with true. cbn [negb].
  cbn [version type control].
  unfold sizeof_ControlFrame in Hlen.
  rewrite !store_load_int by (rewrite ?length_take, ?length_drop; lia).
  rewrite (take_ge (drop 8 msg)) by (rewrite length_drop; lia).
  replace (drop 8 msg) with (drop 4 (drop 4 msg)) by (rewrite drop_drop; reflexivity).
  now rewrite !take_drop.
Qed.

(** X2: frames made for different roles or different opcodes are different
    messages. *)
Theorem make_injective (t t' : ClientType.t) (c c' : ControlMessage.t) :
  make t c = make t' c' -> t = t' /\ c = c'.
Proof.
  intros E. apply (f_equal (ControlFrame_of_message zero_frame)) in E.
  rewrite !decode_make in E. injection E as Ht Hc.
  split; [destruct t, t'; simpl in Ht; congruence
         |destruct c, c'; simpl in Hc; congruence].
Qed.

End CodecBack.

Lemma frame_bytes_roundtrip_witness :
  @ControlFrame_bytes x86_64_release
    (@ControlFrame_of_message x86_64_release zero_frame (hello ++ world ++ ["!"; "?"]%byte)) =
  hello ++ world ++ ["!"; "?"]%byte.
Proof.
  apply (@frame_bytes_roundtrip x86_64_release). reflexivity.
Defined.

Lemma make_injective_witness :
  ClientType.Exporter = ClientType.Exporter /\
  ControlMessage.PING_MSG = ControlMessage.PING_MSG.
Proof.
  apply (@make_injective x86_64_release). reflexivity.
Defined.

(** ** The serializer: appending and reading back *)

(** X3: [write] grows the stream by exactly [size] bytes, the first [size]
    bytes of the storage, and leaves what was written before as it was; a
    write of size 0 changes nothing; two writes lay their bytes one after the
    other. *)
Theorem write_is_append_only (data data' : list byte) (size size' : nat) (s : SerializerStream) :
  (size <= length data)%nat ->
  (size' <= length data')%nat ->
  getSize (write data size s) = (getSize s + size)%nat /\
  take (getSize s) (stream (write data size s)) = stream s /\
  drop (getSize s) (stream (write data size s)) = take size data /\
  write data 0 s = s /\
  stream (write data' size' (write data size s)) =
    stream s ++ take size data ++ take size' data'.
Proof.
  intros Hsize Hsize'. unfold getSize. rewrite !write_appends.
  split; [rewrite length_app, length_take; lia|].
  split; [apply take_app_length|].
  split; [apply drop_app_length|].
  split; [reflexivity|].
  now rewrite <- app_assoc.
Qed.

Lemma write_is_append_only_witness :
  stream (write world 2 (write hello 5 {| stream := [] |})) = hello ++ ["w"; "o"]%byte.
Proof.
  destruct (write_is_append_only hello world 5 2 {| stream := [] |}) as (_ & _ & _ & _ & E);
    [simpl; lia | simpl; lia | exact E].
Defined.

Section SerializerBack.
Context `{Platform}.

Lemma put_string_layout value s :
  stream (put_string value s) = stream s ++ string_encoding value.
Proof.
  unfold put_string, put_size_t, c_str, string_encoding. rewrite !write_appends.
  rewrite <- app_assoc. f_equal. f_equal.
  - apply firstn_all2. rewrite length_store. lia.
  - rewrite <- length_list_byte_of_string. apply take_app_length.
Qed.

Lemma list_byte_of_string_inj a b :
  list_byte_of_string a = list_byte_of_string b -> a = b.
Proof.
  intros E. rewrite <- (string_of_list_byte_of_string a), E.
  apply string_of_list_byte_of_string.
Qed.

(** No encoding of a string is the beginning of the encoding of another. *)
Lemma string_encoding_prefix_free v1 v2 r1 r2 :
  fits_size_t v1 -> fits_size_t v2 ->
  string_encoding v1 ++ r1 = string_encoding v2 ++ r2 ->
  v1 = v2 /\ r1 = r2.
Proof.
  unfold fits_size_t, string_encoding. intros H1 H2 E.
  rewrite <- !app_assoc in E.
  apply app_inj_1 in E as [Elen E]; [|now rewrite !length_store].
  apply (f_equal (load host_order)) in Elen. rewrite !load_store in Elen.
  rewrite !Z.mod_small in Elen by lia. apply Nat2Z.inj in Elen.
  apply app_inj_1 in E as [Ebytes E]; [|now rewrite !length_list_byte_of_string].
  split; [now apply list_byte_of_string_inj|exact E].
Qed.

(** X4: what the String writer appends can be read back in one way only:
    two streams that agree, each continued by anything, were written from
    the same string and are continued by the same bytes. *)
Theorem put_string_reads_back_uniquely (v1 v2 : string) (s : SerializerStream)
    (r1 r2 : list byte) :
  fits_size_t v1 -> fits_size_t v2 ->
  stream (put_string v1 s) ++ r1 = stream (put_string v2 s) ++ r2 ->
  v1 = v2 /\ r1 = r2.
Proof.
  intros H1 H2 E. rewrite !put_string_layout, <- !app_assoc in E.
  apply app_inv_head in E. now apply string_encoding_prefix_free.
Qed.

End SerializerBack.

Lemma put_string_reads_back_uniquely_witness :
  "mat"%string = "mat"%string /\ hello = hello.
Proof.
  apply (@put_string_reads_back_uniquely x86_64_release "mat" "mat" {| stream := world |});
    reflexivity.
Defined.

(** ** Once cleared, [isWorking] stays cleared *)

Section Honours.
Context `{Platform} `{Environment}.

Lemma honours_stopped {A} (m : M A) :
  honours m -> forall w r w', m w = (r, w') -> stopped (self w) -> stopped (self w').
Proof. intros Hm w r w' E Hs. destruct (Hm w r w' E) as (evs & _ & Hk). auto. Qed.

(** A step that leaves the world as it is. *)
Lemma honours_pure {A} (f : World -> outcome A) : honours (fun w => (f w, w)).
Proof.
  intros w r w' E. injection E as _ <-. exists []. rewrite app_nil_r.
  split; [reflexivity|]. intros [Hs|Hs]; [exact Hs|discriminate].
Qed.

(** A step that records one event, not a request to stop, and leaves the
    object as it is. *)
Lemma honours_record {A} (f : World -> outcome A) (e : World -> event) :
  (forall w, asks_to_stop (e w) = false) ->
  honours (fun w => (f w, {| self := self w; history := history w ++ [e w] |})).
Proof.
  intros He w r w' E. injection E as _ <-. exists [e w].
  split; [reflexivity|]. cbn. rewrite He. intros [Hs|Hs]; [exact Hs|discriminate].
Qed.

Lemma honours_ret {A} (a : A) : honours (ret a).
Proof. exact (honours_pure (fun _ => Returned a)). Qed.

Lemma honours_get {A} (f : ZmqClient -> A) : honours (get f).
Proof. exact (honours_pure (fun w => Returned (f (self w)))). Qed.

Lemma honours_indeterminate : honours indeterminate.
Proof. exact (honours_pure (fun w => Returned (on_indeterminate (history w)))). Qed.

Lemma honours_emit e : asks_to_stop e = false -> honours (emit e).
Proof. intros He. exact (honours_record (fun _ => Returned tt) (fun _ => e) (fun _ => He)). Qed.

Lemma honours_call {A} (ask : list event -> reply A) record :
  (forall r, asks_to_stop (record r) = false) -> honours (call ask record).
Proof.
  intros Hr.
  exact (honours_record (fun w => of_reply (ask (history w)))
           (fun w => record (ask (history w))) (fun w => Hr _)).
Qed.

Lemma honours_now : honours now.
Proof.
  exact (honours_record (fun w => Returned (on_now (history w)))
           (fun w => EvNow (on_now (history w))) (fun _ => eq_refl)).
Qed.

Lemma honours_socket_close : honours socket_close.
Proof.
  intros w r w' E. unfold socket_close in E.
  destruct (existsb is_close (history w)).
  - exact (honours_ret tt w r w' E).
  - exact (honours_emit EvClose eq_refl w r w' E).
Qed.

Lemma honours_modify f : (forall c, stopped c -> stopped (f c)) -> honours (modify f).
Proof.
  intros Hf w r w' E. injection E as _ <-. exists []. cbn [self history].
  rewrite app_nil_r. split; [reflexivity|].
  intros [Hs|Hs]; [exact (Hf _ Hs)|discriminate].
Qed.

Lemma honours_bind {A B} (m : M A) (k : A -> M B) :
  honours m -> (forall a, honours (k a)) -> honours (bind m k).
Proof.
  intros Hm Hk w r w' E. unfold bind in E.
  destruct (m w) as [[a| |] w1] eqn:Em.
  - destruct (Hm _ _ _ Em) as (evs1 & Hh1 & H1).
    destruct (Hk a _ _ _ E) as (evs2 & Hh2 & H2).
    exists (evs1 ++ evs2). split; [now rewrite Hh2, Hh1, app_assoc|].
    rewrite existsb_app, orb_true_iff. intros [Hs|[Hs|Hs]]; auto.
  - injection E as _ <-. exact (Hm _ _ _ Em).
  - injection E as _ <-. exact (Hm _ _ _ Em).
Qed.

Lemma honours_try_catch {A} (m handler : M A) :
  honours m -> honours handler -> honours (try_catch m handler).
Proof.
  intros Hm Hh w r w' E. unfold try_catch in E.
  destruct (m w) as [[a| |] w1] eqn:Em.
  - injection E as _ <-. exact (Hm _ _ _ Em).
  - destruct (Hm _ _ _ Em) as (evs1 & Hh1 & H1).
    destruct (Hh _ _ _ E) as (evs2 & Hh2 & H2).
    exists (evs1 ++ evs2). split; [now rewrite Hh2, Hh1, app_assoc|].
    rewrite existsb_app, orb_true_iff. intros [Hs|[Hs|Hs]]; auto.
  - injection E as _ <-. exact (Hm _ _ _ Em).
Qed.

Lemma honours_at_scope_exit {A} (m : M A) cleanup :
  honours m -> honours cleanup -> honours (at_scope_exit m cleanup).
Proof.
  intros Hm Hc w r w' E. unfold at_scope_exit in E.
  destruct (m w) as [o w1] eqn:Em.
  destruct (Hm _ _ _ Em) as (evs1 & Hh1 & H1).
  assert (Hboth : forall rc w2, cleanup w1 = (rc, w2) ->
            exists evs, history w2 = history w ++ evs /\
              (stopped (self w) \/ existsb asks_to_stop evs = true -> stopped (self w2))).
  { intros rc w2 Ec. destruct (Hc _ _ _ Ec) as (evs2 & Hh2 & H2).
    exists (evs1 ++ evs2). split; [now rewrite Hh2, Hh1, app_assoc|].
    rewrite existsb_app, orb_true_iff. intros [Hs|[Hs|Hs]]; auto. }
  destruct o as [a| |].
  - destruct (cleanup w1) as [[[]| |] w2]; injection E as _ <-; exact (Hboth _ _ eq_refl).
  - destruct (cleanup w1) as [[[]| |] w2]; injection E as _ <-; exact (Hboth _ _ eq_refl).
  - injection E as _ <-. exists evs1. auto.
Qed.

Lemma honours_out_of_fuel {A} : honours (fun w => (@OutOfFuel A, w)).
Proof. exact (honours_pure (fun _ => OutOfFuel)). Qed.

End Honours.

Create HintDb honours.

#[local] Hint Resolve honours_ret honours_get honours_now honours_indeterminate
  honours_socket_close honours_out_of_fuel honours_pure : honours.

(** Take a computation apart down to the primitives: what is left are the
    stores into the object, each of which must leave a cleared flag clear,
    and the events, none of which may be a request to stop. *)
Ltac honoured :=
  repeat first
    [ solve [auto with honours]
    | progress (unfold puts, printf, sleep_for, socket_send, socket_recv, setsockopt,
                getsockopt_rcvmore, poll, new_socket, socket_connect, pop_front,
                send_queued)
    | match goal with
      | |- honours (bind _ _) => apply honours_bind; [|intros ?]
      | |- honours (try_catch _ _) => apply honours_try_catch
      | |- honours (at_scope_exit _ _) => apply honours_at_scope_exit
      | |- honours (modify _) =>
          apply honours_modify; intros ? ?; first [assumption | reflexivity]
      | |- honours (emit _) => apply honours_emit; reflexivity
      | |- honours (call _ _) => apply honours_call; intros ?; reflexivity
      | |- honours (if ?b then _ else _) => destruct b
      | |- honours (match ?x with _ => _ end) => destruct x
      end ].

Section NeverSet.
Context `{Platform} `{Environment}.

(** The calls of the other threads, taken in order: they record nothing that
    asks to stop beyond the calls themselves, and a [stopServer] or
    [syncStop] among them leaves the flag clear. *)
Lemma facade_all_stops ops : forall w r w',
  facade_all ops w = (r, w') ->
  exists evs,
    history w' = history w ++ evs /\
    existsb asks_to_stop evs = false /\
    (stopped (self w) \/ existsb stops ops = true -> stopped (self w')).
Proof.
  assert (Hstep : forall op w r w', try_catch (facade op) (ret tt) w = (r, w') ->
            exists evs,
              history w' = history w ++ evs /\ existsb asks_to_stop evs = false /\
              (stopped (self w) \/ stops op = true -> stopped (self w'))).
  { intros op w r w' E.
    destruct op; cbn [facade] in E;
      try (injection E as _ <-; exists []; rewrite app_nil_r; cbn;
           repeat split; auto; intros [Hs|Hs]; first [exact Hs | discriminate | reflexivity]).
    unfold connect in E. run in E.
    destruct (on_setsockopt (history w) ZMQ_IDENTITY (on_random (history w) mod 2 ^ 64))
      as [[]|]; run in E.
    - match type of E with context [on_connect ?h ?a] =>
        destruct (on_connect h a) as [[]|] end; run in E; injection E as _ <-;
        cbn [self history]; rewrite <- ?app_assoc;
        (eexists; split; [reflexivity|]); cbn; split; auto;
        intros [Hs|Hs]; first [exact Hs | discriminate].
    - injection E as _ <-. cbn [self history].
      (eexists; split; [reflexivity|]); cbn; split; auto.
      intros [Hs|Hs]; first [exact Hs | discriminate]. }
  induction ops as [|op ops IH]; intros w r w' E; cbn [facade_all] in E.
  - injection E as _ <-. exists []. rewrite app_nil_r. cbn. repeat split; auto.
    intros [Hs|Hs]; [exact Hs|discriminate].
  - unfold bind in E.
    destruct (try_catch (facade op) (ret tt) w) as [[[]| |] w1] eqn:E1.
    + destruct (Hstep _ _ _ _ E1) as (evs1 & Hh1 & Hq1 & H1).
      destruct (IH _ _ _ E) as (evs2 & Hh2 & Hq2 & H2).
      exists (evs1 ++ evs2). split; [now rewrite Hh2, Hh1, app_assoc|].
      split; [now rewrite existsb_app, Hq1, Hq2|].
      cbn [existsb]. rewrite orb_true_iff. intros [Hs|[Hs|Hs]]; auto.
    + injection E as _ <-. destruct (Hstep _ _ _ _ E1) as (evs1 & Hh1 & Hq1 & H1).
      exfalso. clear - E1. unfold try_catch, ret in E1.
      destruct (facade op w) as [[[]| |] w2]; discriminate.
    + injection E as _ <-. destruct (Hstep _ _ _ _ E1) as (evs1 & Hh1 & Hq1 & H1).
      exfalso. clear - E1. unfold try_catch, ret in E1.
      destruct (facade op w) as [[[]| |] w2] eqn:Ef; try discriminate.
      destruct op; cbn [facade] in Ef; try discriminate.
      unfold connect in Ef. run in Ef.
      destruct (on_setsockopt (history w) ZMQ_IDENTITY (on_random (history w) mod 2 ^ 64))
        as [[]|]; run in Ef; try discriminate.
      match type of Ef with context [on_connect ?h ?a] =>
        destruct (on_connect h a) as [[]|] end; run in Ef; discriminate.
Qed.

Lemma honours_yield : honours yield.
Proof.
  intros w r w' E. unfold yield in E.
  destruct (on_facade (history w)) as [|op ops] eqn:Eops.
  - exact (honours_ret tt w r w' E).
  - revert E. generalize (op :: ops). intros l E. run in E.
    destruct (facade_all_stops l _ _ _ E) as (evs & Hh & Hq & Hk).
    cbn [self history] in Hh, Hk.
    exists (EvFacade l :: evs). split; [now rewrite Hh, <- app_assoc|].
    cbn [existsb asks_to_stop]. rewrite Hq, orb_false_r. exact Hk.
Qed.

Lemma honours_invoke cb payload : honours (invoke cb payload).
Proof.
  intros w r w' E. injection E as _ <-. cbn [self history].
  eexists [_]. split; [reflexivity|].
  cbn [existsb asks_to_stop]. rewrite orb_false_r. intros [Hs|Hs].
  - apply (callback_calls_fields _ (self w)), Hs.
  - apply callback_calls_stop, Hs.
Qed.

Lemma honours_worker_init : honours worker_init.
Proof. unfold worker_init. honoured. Qed.

Lemma honours_wait fuel : honours (wait_startServing fuel).
Proof.
  induction fuel as [|fuel IH]; cbn [wait_startServing]; honoured;
    first [apply honours_yield | exact IH].
Qed.

Lemma honours_send_handshake : honours send_handshake.
Proof. unfold send_handshake. honoured. Qed.

Lemma honours_recv_handshake : honours recv_handshake.
Proof. unfold recv_handshake. honoured. Qed.

Lemma honours_dispatch frame payloadMsg : honours (dispatch frame payloadMsg).
Proof. unfold dispatch. honoured. apply honours_invoke. Qed.

Lemma honours_recv_loop n : forall lastHBRecv, honours (recv_loop n lastHBRecv).
Proof.
  induction n as [|n IH]; intros lastHBRecv; cbn [recv_loop]; honoured;
    first [apply IH | apply honours_dispatch].
Qed.

Lemma honours_sendout_loop n :
  forall didWork lastHBSend, honours (sendout_loop n didWork lastHBSend).
Proof.
  induction n as [|n IH]; intros didWork lastHBSend; cbn [sendout_loop]; honoured; apply IH.
Qed.

Lemma honours_ping_if_due now1 lastHBSend didWork :
  honours (ping_if_due now1 lastHBSend didWork).
Proof. unfold ping_if_due. honoured. Qed.

Lemma honours_writable_branch lastHBRecv lastHBSend didWork :
  honours (writable_branch lastHBRecv lastHBSend didWork).
Proof.
  unfold writable_branch, workerSendoutMessages. honoured;
    first [apply honours_ping_if_due | apply honours_sendout_loop].
Qed.

Lemma honours_steady_work lastHBRecv lastHBSend :
  honours (steady_work lastHBRecv lastHBSend).
Proof.
  unfold steady_work. honoured;
    first [apply honours_recv_loop | apply honours_writable_branch].
Qed.

Lemma honours_steady_iteration lastHBRecv lastHBSend :
  honours (steady_iteration lastHBRecv lastHBSend).
Proof. unfold steady_iteration. honoured. apply honours_steady_work. Qed.

Lemma honours_steady_loop fuel :
  forall lastHBRecv lastHBSend, honours (steady_loop fuel lastHBRecv lastHBSend).
Proof.
  induction fuel as [|fuel IH]; intros lastHBRecv lastHBSend; cbn [steady_loop]; honoured;
    first [apply honours_yield | apply honours_steady_iteration | apply IH].
Qed.

Lemma honours_flush_loop fuel : forall c, honours (flush_loop fuel c).
Proof.
  induction fuel as [|fuel IH]; intros c; cbn [flush_loop]; honoured; apply IH.
Qed.

Lemma honours_teardown : honours teardown.
Proof. unfold teardown. honoured. apply honours_flush_loop. Qed.

Lemma honours_scope_exit : honours scope_exit.
Proof. unfold scope_exit. honoured. Qed.

Lemma honours_serve fuel : honours (serve fuel).
Proof.
  unfold serve, steady_state, loop_then_teardown. honoured;
    first [ apply honours_send_handshake | apply honours_recv_handshake
          | apply honours_steady_loop | apply honours_teardown
          | apply honours_scope_exit ].
Qed.

Lemma honours_workerThread fuel : honours (workerThread fuel).
Proof.
  unfold workerThread. honoured;
    first [ apply honours_worker_init | apply honours_wait | apply honours_serve ].
Qed.

(** X5: the worker never sets [isWorking]. Another thread may clear the flag
    at any point of the worker's run, and so may the callback; so every part
    of the run is taken from any state. Each of them -- the turn of the other
    threads, the callback, the handling of an envelope, the receive loop, the
    drain, a whole iteration, the steady loop however long it runs, the
    teardown, and the thread as a whole -- leaves a cleared flag clear, and
    ends with the flag clear when [stopServer] or [syncStop] was called by
    another thread, or [stopServer] by the callback, while it ran. *)
Theorem good_never_returns :
  honours yield /\
  (forall cb payload, honours (invoke cb payload)) /\
  (forall frame payload, honours (dispatch frame payload)) /\
  (forall n lastHBRecv, honours (recv_loop n lastHBRecv)) /\
  (forall lastHBSend, honours (workerSendoutMessages lastHBSend)) /\
  (forall lastHBRecv lastHBSend, honours (steady_iteration lastHBRecv lastHBSend)) /\
  (forall fuel lastHBRecv lastHBSend, honours (steady_loop fuel lastHBRecv lastHBSend)) /\
  honours teardown /\
  (forall fuel, honours (workerThread fuel)).
Proof.
  split; [exact honours_yield|].
  split; [exact honours_invoke|].
  split; [exact honours_dispatch|].
  split; [exact (fun n => honours_recv_loop n)|].
  split; [exact (honours_sendout_loop MAX_CONSEQ_MESSAGES false)|].
  split; [exact honours_steady_iteration|].
  split; [exact (fun fuel => honours_steady_loop fuel)|].
  split; [exact honours_teardown|exact honours_workerThread].
Qed.

End NeverSet.

Lemma good_never_returns_witness :
  let w' := snd (@steady_iteration x86_64_release echo_then_stop 0 0 listening_exporter) in
  good (self listening_exporter) = true /\
  callbacks (history w') = [(7%nat, hello)] /\
  good (self w') = false.
Proof.
  split; [reflexivity|]. split; [reflexivity|].
  destruct (@good_never_returns x86_64_release echo_then_stop)
    as (_ & _ & _ & _ & _ & Hiter & _).
  destruct (Hiter 0 0 listening_exporter _ _ (surjective_pairing _)) as (evs & Hh & Hk).
  apply Hk. right.
  vm_compute in Hh. injection Hh as <-. reflexivity.
Defined.

(** ** Cancellation *)

Section Cancel.
Context `{Platform} `{Environment}.

Lemma connect_result addr w :
  exists r w', connect addr w = (r, w') /\ r <> OutOfFuel.
Proof.
  unfold connect. run.
  match goal with |- context [on_setsockopt ?h ?o ?v] =>
    destruct (on_setsockopt h o v) as [[]|] end; run.
  2:{ eexists _, _. split; [reflexivity|discriminate]. }
  match goal with |- context [on_connect ?h ?a] =>
    destruct (on_connect h a) as [[]|] end; run;
    eexists _, _; (split; [reflexivity|discriminate]).
Qed.

Lemma facade_all_returns ops : forall w, exists w', facade_all ops w = (Returned tt, w').
Proof.
  induction ops as [|op ops IH]; intros w; cbn [facade_all]; [eexists; reflexivity|].
  unfold bind, try_catch.
  assert (Hop : exists r w1, facade op w = (r, w1) /\ r <> OutOfFuel).
  { destruct op; cbn [facade]; try (eexists _, _; split; [reflexivity|discriminate]).
    apply connect_result. }
  destruct Hop as ([[]| |] & w1 & -> & Hr); [apply IH | apply IH | contradiction].
Qed.

Lemma yield_returns w : exists w', yield w = (Returned tt, w').
Proof.
  unfold yield. destruct (on_facade (history w)) as [|op ops]; [eexists; reflexivity|].
  run. apply facade_all_returns.
Qed.

Lemma send_handshake_returns w : exists r w', send_handshake w = (Returned r, w').
Proof.
  unfold send_handshake. run.
  destruct (ClientType.eqb (clientType (self w)) ClientType.Exporter);
    match goal with |- context [on_send ?h ?m true] =>
      destruct (on_send h m true) as [b|] end; run;
    try (eexists _, _; reflexivity);
    match goal with |- context [on_send ?h emptyFrame false] =>
      destruct (on_send h emptyFrame false) as [b'|] end; run;
    eexists _, _; reflexivity.
Qed.

Lemma teardown_returns w : exists w', teardown w = (Returned tt, w').
Proof.
  unfold teardown. run.
  destruct (serverStop (self w)).
  - match goal with |- context [on_setsockopt ?h ?o ?v] =>
      destruct (on_setsockopt h o v) as [[]|] end; run; [|eexists; reflexivity].
    match goal with |- context [on_send ?h ?m true] =>
      destruct (on_send h m true) as [b|] end; run; [|eexists; reflexivity].
    match goal with |- context [on_send ?h emptyFrame false] =>
      destruct (on_send h emptyFrame false) as [b'|] end; run; eexists; reflexivity.
  - destruct (flushOnExit (self w)); [|eexists; reflexivity].
    match goal with |- context [on_setsockopt ?h ?o ?v] =>
      destruct (on_setsockopt h o v) as [[]|] end; run; [|eexists; reflexivity].
    match goal with |- context [flush_loop ?n 0 ?w1] =>
      destruct (flush_loop_spec n 0 w1) as (r & w' & _ & _ & -> & [-> | ->] & _) end;
      [cbn [self]; lia | |eexists; reflexivity].
    destruct (socket_close_spec w') as (evs & -> & _). eexists; reflexivity.
Qed.

Lemma steady_loop_stopped fuel lastHBRecv lastHBSend w :
  stopped (self w) ->
  exists w1,
    yield w = (Returned tt, w1) /\ stopped (self w1) /\
    steady_loop fuel lastHBRecv lastHBSend w = (Returned Next, w1).
Proof.
  intros Hs. destruct (yield_returns w) as (w1 & Hy).
  pose proof (honours_stopped _ honours_yield _ _ _ Hy Hs) as Hs1.
  exists w1. split; [exact Hy|]. split; [exact Hs1|].
  destruct fuel; cbn [steady_loop]; unfold bind, get; rewrite Hy, Hs1; reflexivity.
Qed.

(** X6: [isWorking] found clear at the top of the steady loop ends the loop
    there: the other threads have had their turn, and no poll, receive or
    send is made, whatever the worker had still to do. With neither
    [serverStop] nor [flushOnExit] set the teardown adds nothing either. *)
Theorem cancel_at_loop_top (fuel : nat) (lastHBRecv lastHBSend : Z) (w : World) :
  good (self w) = false ->
  exists w1,
    yield w = (Returned tt, w1) /\
    good (self w1) = false /\
    steady_loop fuel lastHBRecv lastHBSend w = (Returned Next, w1) /\
    (serverStop (self w1) = false -> flushOnExit (self w1) = false ->
     loop_then_teardown fuel lastHBRecv lastHBSend w = (Returned tt, w1)).
Proof.
  intros Hs. destruct (steady_loop_stopped fuel lastHBRecv lastHBSend w Hs)
    as (w1 & Hy & Hs1 & Hloop).
  exists w1. repeat split; auto.
  intros Hstop Hflush. unfold loop_then_teardown, bind. rewrite Hloop.
  unfold teardown, bind, get. rewrite Hstop, Hflush. reflexivity.
Qed.

(** X7: a worker released from its wait with [isWorking] already clear comes
    to its end whatever the transport and the peer do and however little the
    steady loop is allowed to run, and leaves [good()] false. *)
Theorem stopped_worker_terminates (fuel : nat) (w : World) :
  good (self w) = false ->
  exists w', serve fuel w = (Returned tt, w') /\ good (self w') = false.
Proof.
  intros Hs.
  assert (Hbody : exists w1,
            (err <- get errorConnect ;;
             if err then ret tt
             else
               sent <- send_handshake ;;
               match sent with
               | Return => ret tt
               | Next =>
                   replied <- recv_handshake ;;
                   match replied with
                   | Return => ret tt
                   | Next => steady_state fuel
                   end
               end) w = (Returned tt, w1)).
  { unfold bind at 1. unfold get. destruct (errorConnect (self w)); [eexists; reflexivity|].
    unfold bind at 1.
    destruct (send_handshake_returns w) as ([|] & w1 & Hsend); rewrite Hsend;
      [|eexists; reflexivity].
    pose proof (honours_stopped _ honours_send_handshake _ _ _ Hsend Hs) as Hs1.
    unfold bind at 1.
    destruct (recv_handshake_cases w1) as ([|] & evs & Hrecv & _); rewrite Hrecv;
      [|eexists; reflexivity].
    pose proof (honours_stopped _ honours_recv_handshake _ _ _ Hrecv Hs1) as Hs2.
    unfold steady_state. run.
    match goal with |- context [loop_then_teardown fuel ?lr ?ls ?w3] =>
      destruct (steady_loop_stopped fuel lr ls w3 Hs2) as (w4 & _ & _ & Hloop) end.
    unfold loop_then_teardown, bind. rewrite Hloop.
    destruct (teardown_returns w4) as (w5 & ->). eexists; reflexivity. }
  destruct Hbody as (w1 & Hbody).
  unfold serve, at_scope_exit. rewrite Hbody.
  destruct (scope_exit_spec w1) as (evs & -> & _).
  eexists. split; reflexivity.
Qed.

End Cancel.

Lemma cancel_at_loop_top_witness :
  @steady_loop x86_64_release silent_peer 0 0 0 stopping_exporter =
  (Returned Next, stopping_exporter).
Proof.
  destruct (@cancel_at_loop_top x86_64_release silent_peer 0 0 0 stopping_exporter eq_refl)
    as (w1 & Hy & _ & Hloop & _).
  vm_compute in Hy. injection Hy as <-. exact Hloop.
Defined.

Lemma stopped_worker_terminates_witness :
  exists w',
    @serve x86_64_release old_server 0 stopped_before_connect = (Returned tt, w') /\
    good (self w') = false.
Proof.
  apply (@stopped_worker_terminates x86_64_release old_server 0 stopped_before_connect).
  reflexivity.
Defined.

(** ** Start-up and the way to the handshake *)

Section Startup.
Context `{Platform} `{Environment}.

Lemma scope_exit_only_closes w :
  exists evs,
    scope_exit w =
      (Returned tt, {| self := set_isWorking false (self w); history := history w ++ evs |}) /\
    (evs = [] \/ evs = [EvClose]).
Proof.
  unfold scope_exit, socket_close. run.
  destruct (existsb is_close (history w)); run.
  - exists []. rewrite app_nil_r. auto.
  - exists [EvClose]. auto.
Qed.

(** X8: if creating or configuring the socket throws, the thread clears
    [isWorking] and ends there: it does not wait for [connect], and it never
    sends or receives; otherwise the object is left as constructed. *)
Theorem worker_init_failure (fuel : nat) (w : World) :
  exists (socketInit : bool) (evs : list event),
    let w1 := {| self := (if socketInit then self w else set_isWorking false (self w));
                 history := history w ++ evs |} in
    worker_init w = (Returned socketInit, w1) /\
    (socketInit = false <-> existsb event_throws evs = true) /\
    sent_parts evs = [] /\ received evs = [] /\
    (socketInit = false ->
     workerThread fuel w = (Returned tt, w1) /\ good (self w1) = false).
Proof.
  unfold workerThread, worker_init. run.
  destruct (on_socket (history w)) as [[]|] eqn:E1; run.
  2:{ exists false. eexists [_; _]. rewrite <- app_assoc. cbv zeta.
      split; [reflexivity|]. cbn [existsb event_throws throws orb app].
      repeat split; auto. }
  match goal with |- context [on_setsockopt ?h ZMQ_LINGER 0] =>
    destruct (on_setsockopt h ZMQ_LINGER 0) as [[]|] eqn:E2 end; run.
  2:{ exists false. eexists [_; _; _]. rewrite <- !app_assoc. cbv zeta.
      split; [reflexivity|]. cbn [existsb event_throws throws orb app].
      repeat split; auto. }
  match goal with |- context [on_setsockopt ?h ZMQ_SNDTIMEO ?v] =>
    destruct (on_setsockopt h ZMQ_SNDTIMEO v) as [[]|] eqn:E3 end; run.
  2:{ exists false. eexists [_; _; _; _]. rewrite <- !app_assoc. cbv zeta.
      split; [reflexivity|]. cbn [existsb event_throws throws orb app].
      repeat split; auto. }
  exists true. eexists [_; _; _]. rewrite <- !app_assoc. cbv zeta.
  split; [reflexivity|]. cbn [existsb event_throws throws orb app].
  repeat split; auto; discriminate.
Qed.

(** X9: when the transport refuses the address, [connect] still releases
    the worker, which then skips the handshake: it sends nothing, receives
    nothing, closes the socket and clears [isWorking]; [connected()] is
    false. *)
Theorem failed_connect_ends_worker (fuel : nat) (addr : string) (w : World) :
  let id := on_random (history w) mod 2 ^ 64 in
  on_setsockopt (history w) ZMQ_IDENTITY id = Returns tt ->
  on_connect (history w ++ [EvSetsockopt ZMQ_IDENTITY id (Returns tt)]) addr = Throws ->
  exists w' evs,
    (connect addr ;;; serve fuel) w = (Returned tt, w') /\
    history w' = history w ++ evs /\
    sent_parts evs = [] /\ received evs = [] /\
    good (self w') = false /\
    connected (self w') = false.
Proof.
  intros id Hopt Hconn. unfold connect. run. fold id. rewrite Hopt. run. rewrite Hconn. run.
  unfold serve, at_scope_exit. run. cbn [errorConnect set_startServing set_errorConnect].
  match goal with |- context [scope_exit ?w1] =>
    destruct (scope_exit_only_closes w1) as (evs & -> & Hevs) end.
  eexists _, (_ :: _ :: _ :: evs). split; [reflexivity|].
  cbn [self history]. rewrite <- !app_assoc. split; [reflexivity|].
  cbn [sent_parts received app]. destruct Hevs as [-> | ->]; repeat split; auto.
Qed.

(** X10: the handshake the worker sends is one envelope, the connect opcode
    of its role under its role, followed by an empty frame; the worker goes
    on to wait for the reply exactly when neither send throws, whatever the
    sends return. *)
Theorem send_handshake_envelope (w : World) :
  exists left evs,
    send_handshake w = (Returned left, {| self := self w; history := history w ++ evs |}) /\
    (left = Next <-> existsb event_throws evs = false) /\
    (left = Next ->
     sent_parts evs =
       [(make (clientType (self w)) (connect_opcode (clientType (self w))), true);
        (emptyFrame, false)]) /\
    received evs = [].
Proof.
  unfold send_handshake. run.
  set (frame := make (clientType (self w)) (connect_opcode (clientType (self w)))).
  destruct (on_send (history w) frame true) as [b|] eqn:E1.
  - destruct (on_send (history w ++ [EvSend frame true (Returns b)]) emptyFrame false)
      as [b'|] eqn:E2.
    + exists Next, [EvSend frame true (Returns b); EvSend emptyFrame false (Returns b')].
      subst frame. destruct (clientType (self w)); cbn [ClientType.eqb ClientType.value Z.eqb
        Pos.eqb connect_opcode] in *; rewrite E1; run; rewrite E2; run;
        rewrite <- app_assoc; repeat split; auto.
    + exists Return. eexists [EvSend frame true (Returns b); EvSend emptyFrame false Throws; _].
      subst frame. destruct (clientType (self w)); cbn [ClientType.eqb ClientType.value Z.eqb
        Pos.eqb connect_opcode] in *; rewrite E1; run; rewrite E2; run;
        rewrite <- !app_assoc; repeat split; auto; discriminate.
  - exists Return. eexists [EvSend frame true Throws; _].
    subst frame. destruct (clientType (self w)); cbn [ClientType.eqb ClientType.value Z.eqb
      Pos.eqb connect_opcode] in *; rewrite E1; run;
      rewrite <- !app_assoc; repeat split; auto; discriminate.
Qed.

End Startup.

Lemma worker_init_failure_witness :
  exists w1,
    @workerThread x86_64_release no_sockets 5 (ZmqClient_new false) = (Returned tt, w1) /\
    good (self w1) = false.
Proof.
  destruct (@worker_init_failure x86_64_release no_sockets 5 (ZmqClient_new false))
    as (b & evs & Hinit & _ & _ & _ & Hfail).
  cbv zeta in Hinit, Hfail. destruct b.
  - vm_compute in Hinit. discriminate Hinit.
  - eexists. exact (Hfail eq_refl).
Defined.

Lemma failed_connect_ends_worker_witness :
  exists w' evs,
    (@connect bad_address "tcp://localhost:5555" ;;; @serve x86_64_release bad_address 2)
      (ZmqClient_new false) = (Returned tt, w') /\
    history w' = history (ZmqClient_new false) ++ evs /\
    sent_parts evs = [] /\ received evs = [] /\
    good (self w') = false /\
    connected (self w') = false.
Proof.
  apply (@failed_connect_ends_worker x86_64_release bad_address 2 "tcp://localhost:5555"
           (ZmqClient_new false)); reflexivity.
Defined.

Lemma send_handshake_envelope_witness :
  sent_parts (history (snd (@send_handshake x86_64_release silent_peer steady_heartbeat))) =
  [(@make x86_64_release ClientType.Heartbeat ControlMessage.HEARTBEAT_CONNECT_MSG, true);
   ([], false)].
Proof.
  destruct (@send_handshake_envelope x86_64_release silent_peer steady_heartbeat)
    as (left & evs & Hrun & Hiff & Hsent & _).
  rewrite Hrun. cbn [snd history steady_heartbeat]. cbn [sent_parts].
  destruct left.
  - exact (Hsent eq_refl).
  - vm_compute in Hrun. discriminate Hrun.
Defined.

(** ** The receive loop *)

Lemma received_app a b : received (a ++ b) = received a ++ received b.
Proof.
  induction a as [|e a IH]; [reflexivity|].
  destruct e; simpl; try exact IH. now rewrite IH.
Qed.

Lemma callbacks_app a b : callbacks (a ++ b) = callbacks a ++ callbacks b.
Proof.
  induction a as [|e a IH]; [reflexivity|].
  destruct e; simpl; try exact IH. now rewrite IH.
Qed.

Section Receive.
Context `{Platform} `{Environment}.

(** X11: in the steady state an envelope whose frame is valid but carries
    another role than the worker's is dropped like an invalid one: nothing
    but the log changes, [lastHBRecv] is not refreshed, and the loop goes on
    to its next turn. *)
Theorem recv_loop_drops_other_role (n : nat) (lastHBRecv : Z) (w : World)
    (c p : bool * message_t) :
  isWorking (self w) = true ->
  on_recv (history w) = Returns c ->
  on_recv (history w ++ [EvRecv (Returns c)]) = Returns p ->
  let frame := ControlFrame_of_message (on_indeterminate (history w))
                 (if fst c then snd c else []) in
  version frame = ZMQ_PROTOCOL_VERSION ->
  type frame <> ClientType.value (clientType (self w)) ->
  recv_loop (S n) lastHBRecv w =
  recv_loop n lastHBRecv
    {| self := self w;
       history :=
         history w
         ++ [EvRecv (Returns c); EvRecv (Returns p);
             EvPuts "ZMQ server sent mismatching msg type of worker for us!"] |}.
Proof.
  intros Hw Hc Hp frame Hv Ht. cbn [recv_loop]. run. rewrite Hw. run. rewrite Hc. run.
  rewrite Hp. run. fold frame.
  apply ControlFrame_bool_true in Hv. rewrite Hv.
  apply Z.eqb_neq in Ht. rewrite Ht. run. rewrite <- !app_assoc. reflexivity.
Qed.

(** Split a conjunction without looking into what its parts are made of. *)
Ltac conj := repeat match goal with |- _ /\ _ => split end.

Lemma dispatch_cases (frame : ControlFrame) (payloadMsg : message_t) (w : World) :
  exists evs c',
    dispatch frame payloadMsg w =
      (Returned tt, {| self := c'; history := history w ++ evs |}) /\
    match callback (self w) with
    | Some f =>
        if control frame =? ControlMessage.value ControlMessage.DATA_MSG
        then let calls := on_callback (history w) f payloadMsg in
             evs = [EvCallback f payloadMsg calls] /\
             c' = fold_left (fun c op => callback_call op c) calls (self w)
        else callbacks evs = [] /\ c' = self w
    | None => callbacks evs = [] /\ c' = self w
    end /\
    sent_parts evs = [] /\ received evs = [] /\
    touched_by_callbacks (self w) c'.
Proof.
  unfold dispatch.
  destruct (control frame =? ControlMessage.value ControlMessage.DATA_MSG); run.
  { destruct (callback (self w)) as [f|]; run.
    - unfold invoke. eexists [_], _. split; [reflexivity|]. cbv zeta.
      split; [split; reflexivity|]. split; [reflexivity|]. split; [reflexivity|].
      apply (callback_calls_fields _ (self w)).
    - exists [], (self w). rewrite app_nil_r. destruct w; cbn.
      conj; auto. apply touched_by_callbacks_refl. }
  assert (Hquiet : forall (x : outcome unit * World) (evs : list event),
            x = (Returned tt, {| self := self w; history := history w ++ evs |}) ->
            callbacks evs = [] -> sent_parts evs = [] -> received evs = [] ->
            exists evs0 c',
              x = (Returned tt, {| self := c'; history := history w ++ evs0 |}) /\
              match callback (self w) with
              | Some f =>
                  if false
                  then let calls := on_callback (history w) f payloadMsg in
                       evs0 = [EvCallback f payloadMsg calls] /\
                       c' = fold_left (fun c op => callback_call op c) calls (self w)
                  else callbacks evs0 = [] /\ c' = self w
              | None => callbacks evs0 = [] /\ c' = self w
              end /\
              sent_parts evs0 = [] /\ received evs0 = [] /\
              touched_by_callbacks (self w) c').
  { intros x evs -> Hc Hs Hr. exists evs, (self w). split; [reflexivity|].
    split; [destruct (callback (self w)); auto|].
    split; [exact Hs|]. split; [exact Hr|]. apply touched_by_callbacks_refl. }
  assert (Hw : (Returned tt, w) =
               (Returned tt, {| self := self w; history := history w ++ [] |})).
  { rewrite app_nil_r. destruct w; reflexivity. }
  destruct (control frame =? ControlMessage.value ControlMessage.PING_MSG);
    [|destruct (control frame =? ControlMessage.value ControlMessage.PONG_MSG)];
    try destruct (negb (length payloadMsg =? 0)%nat); run;
    first [ apply (Hquiet _ [] Hw); reflexivity
          | apply (Hquiet _ [_] eq_refl); reflexivity ].
Qed.

(** X12: of the envelopes the worker accepts, only those with opcode
    [DATA_MSG] reach the callback: it is invoked once, with the payload, when
    one is registered, and not at all otherwise; PING, PONG and any other
    opcode never reach it. Handling an envelope sends and receives nothing;
    it changes the client object only through the calls the callback makes
    on it ([send], [setFlushOnExit], [stopServer]), applied in the order the
    callback makes them, and leaves it as it was when the callback is not
    invoked. *)
Theorem dispatch_calls_back_on_data_only (frame : ControlFrame) (payloadMsg : message_t)
    (w : World) :
  exists evs c',
    dispatch frame payloadMsg w =
      (Returned tt, {| self := c'; history := history w ++ evs |}) /\
    match callback (self w) with
    | Some f =>
        if control frame =? ControlMessage.value ControlMessage.DATA_MSG
        then let calls := on_callback (history w) f payloadMsg in
             evs = [EvCallback f payloadMsg calls] /\
             c' = fold_left (fun c op => callback_call op c) calls (self w)
        else callbacks evs = [] /\ c' = self w
    | None => callbacks evs = [] /\ c' = self w
    end /\
    sent_parts evs = [] /\ received evs = [] /\
    touched_by_callbacks (self w) c'.
Proof. exact (dispatch_cases frame payloadMsg w). Qed.

Lemma dispatch_events frame payloadMsg w :
  exists evs c',
    dispatch frame payloadMsg w =
      (Returned tt, {| self := c'; history := history w ++ evs |}) /\
    sent_parts evs = [] /\ received evs = [] /\
    (length (callbacks evs) <= 1)%nat /\
    (callback (self w) = None -> callbacks evs = []) /\
    (callbacks evs = [] -> c' = self w) /\
    touched_by_callbacks (self w) c'.
Proof.
  destruct (dispatch_cases frame payloadMsg w) as (evs & c' & Hrun & Hcase & Hs & Hr & Ht).
  exists evs, c'. split; [exact Hrun|]. split; [exact Hs|]. split; [exact Hr|].
  destruct (callback (self w)) as [f|].
  - destruct (control frame =? ControlMessage.value ControlMessage.DATA_MSG).
    + destruct Hcase as [-> ->]. cbn. conj; auto; discriminate.
    + destruct Hcase as [Hc ->]. rewrite Hc. cbn. conj; auto; lia.
  - destruct Hcase as [Hc ->]. rewrite Hc. cbn. conj; auto; lia.
Qed.

Lemma recv_loop_events n : forall lastHBRecv w,
  exists left lastHBRecv' w' evs,
    recv_loop n lastHBRecv w = (Returned (left, lastHBRecv'), w') /\
    history w' = history w ++ evs /\
    sent_parts evs = [] /\
    (length (received evs) <= 2 * n)%nat /\
    (length (callbacks evs) <= n)%nat /\
    (callback (self w) = None -> callbacks evs = []) /\
    (callbacks evs = [] -> self w' = self w) /\
    touched_by_callbacks (self w) (self w').
Proof.
  induction n as [|n IH]; intros lastHBRecv w.
  { exists Next, lastHBRecv, w, []. rewrite app_nil_r. cbn.
    conj; auto. apply touched_by_callbacks_refl. }
  cbn [recv_loop]. run.
  destruct (isWorking (self w)); run.
  2:{ exists Next, lastHBRecv, w, []. rewrite app_nil_r. cbn.
      conj; auto; try lia. apply touched_by_callbacks_refl. }
  destruct (on_recv (history w)) as [c|]; run.
  2:{ eexists _, _, _, [_; _]. split; [reflexivity|]. cbn [self history].
      rewrite <- app_assoc. split; [reflexivity|]. cbn.
      conj; auto; try lia. apply touched_by_callbacks_refl. }
  match goal with |- context [on_recv ?h] => destruct (on_recv h) as [p|] end; run.
  2:{ eexists _, _, _, [_; _; _]. split; [reflexivity|]. cbn [self history].
      rewrite <- !app_assoc. split; [reflexivity|]. cbn.
      conj; auto; try lia. apply touched_by_callbacks_refl. }
  assert (Hnext : forall line lr,
            exists left lastHBRecv' w' evs,
              recv_loop n lr
                {| self := self w;
                   history := ((history w ++ [EvRecv (Returns c)]) ++ [EvRecv (Returns p)])
                              ++ [EvPuts line] |} =
                (Returned (left, lastHBRecv'), w') /\
              history w' = history w ++ evs /\
              sent_parts evs = [] /\
              (length (received evs) <= 2 * S n)%nat /\
              (length (callbacks evs) <= S n)%nat /\
              (callback (self w) = None -> callbacks evs = []) /\
              (callbacks evs = [] -> self w' = self w) /\
              touched_by_callbacks (self w) (self w')).
  { intros line lr.
    match goal with |- context [recv_loop n lr ?w1] =>
      destruct (IH lr w1)
        as (left & lr' & w' & evs & Hrun & Hh & Hs & Hr & Hc & Hnone & Hsame & Ht) end.
    cbn [self history] in Hh, Hnone, Hsame, Ht.
    exists left, lr', w', ([EvRecv (Returns c); EvRecv (Returns p); EvPuts line] ++ evs).
    split; [exact Hrun|]. split; [rewrite Hh, <- !app_assoc; reflexivity|].
    rewrite sent_parts_app, received_app, callbacks_app, Hs. cbn.
    conj; auto; lia. }
  match goal with |- context [ControlFrame_bool ?f] =>
    destruct (ControlFrame_bool f) end; run; [|apply Hnext].
  match goal with |- context [type ?f =? ?v] =>
    destruct (type f =? v) end; run; [|apply Hnext].
  clear Hnext.
  match goal with |- context [dispatch ?f ?m ?w1] =>
    destruct (dispatch_events f m w1)
      as (devs & c' & -> & Hds & Hdr & Hdc & Hdnone & Hdsame & Hdt) end.
  cbn [self history] in *.
  match goal with |- context [on_rcvmore ?h] =>
    destruct (on_rcvmore h) as [more|] end; run.
  2:{ eexists _, _, _, ([_; _; _] ++ devs ++ [_; _]). split; [reflexivity|].
      cbn [self history]. split; [rewrite <- !app_assoc; reflexivity|].
      rewrite !sent_parts_app, !received_app, !callbacks_app, Hds, Hdr. cbn.
      rewrite !app_nil_r. conj; auto; lia. }
  destruct (more =? 0); run.
  { eexists _, _, _, ([_; _; _] ++ devs ++ [_]). split; [reflexivity|].
    cbn [self history]. split; [rewrite <- !app_assoc; reflexivity|].
    rewrite !sent_parts_app, !received_app, !callbacks_app, Hds, Hdr. cbn.
    rewrite !app_nil_r. conj; auto; lia. }
  match goal with |- context [recv_loop n ?lr ?w1] =>
    destruct (IH lr w1)
      as (left & lr' & w' & evs & Hrun & Hh & Hs & Hr & Hc & Hnone & Hsame & Ht) end.
  cbn [self history] in Hh, Hnone, Hsame, Ht.
  pose proof Hdt as Hdt0. destruct Hdt as (Hdt1 & Hdcb & Hdt').
  exists left, lr', w', ([EvRecv (Returns c); EvRecv (Returns p);
                          EvNow (on_now ((history w ++ [EvRecv (Returns c)])
                                         ++ [EvRecv (Returns p)]))]
                         ++ devs ++ [EvRcvMore (Returns more)] ++ evs).
  split; [exact Hrun|]. split; [rewrite Hh, <- !app_assoc; reflexivity|].
  rewrite !sent_parts_app, !received_app, !callbacks_app, Hds, Hdr, Hs. cbn.
  rewrite !length_app.
  split; [reflexivity|]. split; [lia|]. split; [lia|].
  split; [|split].
  - intros Hcb. rewrite (Hdnone Hcb). apply Hnone. now rewrite Hdcb.
  - intros Hnil. apply app_eq_nil in Hnil as [Hn1 Hn2].
    rewrite (Hsame Hn2). exact (Hdsame Hn1).
  - eapply touched_by_callbacks_trans; [exact Hdt0 | exact Ht].
Qed.

(** X13: one readable branch takes at most [MAX_CONSEQ_MESSAGES] envelopes
    off the socket (twice as many receives) and invokes the callback at most
    as many times, never when none is registered; it sends nothing. It
    changes the client object only through what the callbacks do with it:
    role, registered callback, [startServing] and [errorConnect] stay, the
    queue can only have grown at its end, [isWorking] is not set; and with no
    callback invoked the object is exactly as it was. *)
Theorem recv_loop_is_bounded (lastHBRecv : Z) (w : World) :
  exists left lastHBRecv' w' evs,
    recv_loop MAX_CONSEQ_MESSAGES lastHBRecv w = (Returned (left, lastHBRecv'), w') /\
    history w' = history w ++ evs /\
    sent_parts evs = [] /\
    (length (received evs) <= 20)%nat /\
    (length (callbacks evs) <= 10)%nat /\
    (callback (self w) = None -> callbacks evs = []) /\
    (callbacks evs = [] -> self w' = self w) /\
    touched_by_callbacks (self w) (self w').
Proof. exact (recv_loop_events MAX_CONSEQ_MESSAGES lastHBRecv w). Qed.

End Receive.

Lemma recv_loop_drops_other_role_witness :
  @recv_loop x86_64_release confused_server 1 0 steady_heartbeat =
  (Returned (Next, 0),
   {| self := self steady_heartbeat;
      history :=
        history steady_heartbeat
        ++ [EvRecv (Returns (true, @make x86_64_release ClientType.Exporter
                                     ControlMessage.DATA_MSG));
            EvRecv (Returns (true, @make x86_64_release ClientType.Exporter
                                     ControlMessage.DATA_MSG));
            EvPuts "ZMQ server sent mismatching msg type of worker for us!"] |}).
Proof.
  rewrite (@recv_loop_drops_other_role x86_64_release confused_server 0 0 steady_heartbeat
             _ _ eq_refl eq_refl eq_refl eq_refl).
  - reflexivity.
  - vm_compute. discriminate.
Defined.

Lemma dispatch_calls_back_on_data_only_witness :
  let w' := snd (@dispatch echo_then_stop
                   (ControlFrame_new ClientType.Exporter ControlMessage.DATA_MSG)
                   hello listening_exporter) in
  callbacks (history w') = [(7%nat, hello)] /\
  messageQue (self w') = [hello; world; hello] /\
  good (self w') = false.
Proof.
  destruct (@dispatch_calls_back_on_data_only echo_then_stop
              (ControlFrame_new ClientType.Exporter ControlMessage.DATA_MSG)
              hello listening_exporter) as (evs & c' & Hrun & Hcase & _).
  cbn in Hcase. destruct Hcase as [-> ->]. rewrite Hrun. cbn. auto.
Defined.

Lemma recv_loop_is_bounded_witness :
  let w' := snd (@recv_loop x86_64_release old_server 10 0 steady_exporter) in
  callbacks (history w') = callbacks (history steady_exporter) /\
  self w' = self steady_exporter.
Proof.
  destruct (@recv_loop_is_bounded x86_64_release old_server 0 steady_exporter)
    as (left & lr & w' & evs & Hrun & Hh & _ & _ & _ & Hnone & Hsame & _).
  change MAX_CONSEQ_MESSAGES with 10%nat in Hrun. rewrite Hrun.
  cbn [snd]. rewrite Hh, callbacks_app, (Hnone eq_refl), app_nil_r.
  split; [reflexivity | exact (Hsame (Hnone eq_refl))].
Defined.

(** ** Draining the queue *)

Lemma set_messageQue_same c : set_messageQue (messageQue c) c = c.
Proof. destruct c; reflexivity. Qed.

Lemma set_messageQue_eq c q : messageQue c = q -> set_messageQue q c = c.
Proof. intros <-. apply set_messageQue_same. Qed.

Lemma callbacks_cons_send m b r evs : callbacks (EvSend m b r :: evs) = callbacks evs.
Proof. reflexivity. Qed.

Section DrainMore.
Context `{Platform} `{Environment}.

Lemma sendout_loop_conserves n : forall didWork lastHBSend w,
  exists r w' evs k j,
    sendout_loop n didWork lastHBSend w = (r, w') /\
    history w' = history w ++ evs /\
    self w' = set_messageQue (drop j (messageQue (self w))) (self w) /\
    payload_sends evs = take k (messageQue (self w)) /\
    payloads_returned evs = take j (messageQue (self w)) /\
    (j <= length (messageQue (self w)))%nat /\
    (j <= k <= n)%nat /\
    (j = k \/ k = S j /\ r = Raised) /\
    (isWorking (self w) = false -> evs = []) /\
    received evs = [] /\ callbacks evs = [].
Proof.
  induction n as [|n IH]; intros didWork lastHBSend w.
  { exists (Returned (didWork, lastHBSend)), w, [], 0%nat, 0%nat.
    rewrite app_nil_r, drop_0, set_messageQue_same. repeat split; auto; lia. }
  cbn [sendout_loop]. run.
  destruct (messageQue (self w)) as [|msg rest] eqn:Hq.
  { exists (Returned (didWork, lastHBSend)), w, [], 0%nat, 0%nat.
    rewrite app_nil_r, drop_0, (set_messageQue_eq _ _ Hq). repeat split; auto; lia. }
  destruct (isWorking (self w)) eqn:Hw; run.
  2:{ exists (Returned (didWork, lastHBSend)), w, [], 0%nat, 0%nat.
      rewrite app_nil_r, drop_0, (set_messageQue_eq _ _ Hq).
      repeat split; auto; cbn; lia. }
  match goal with |- context [on_send ?h ?m true] =>
    destruct (on_send h m true) as [[|]|] end; run.
  2,3: eexists _, _, [_], 0%nat, 0%nat; (split; [reflexivity|]);
       cbn [self history]; rewrite drop_0, (set_messageQue_eq _ _ Hq);
       repeat split; auto; try discriminate; cbn; lia.
  match goal with |- context [on_send ?h msg false] =>
    destruct (on_send h msg false) as [sent|] end; run.
  2:{ eexists _, _, [_; _], 1%nat, 0%nat. split; [reflexivity|].
      cbn [self history]. rewrite <- app_assoc, drop_0, (set_messageQue_eq _ _ Hq).
      split; [reflexivity|]. split; [reflexivity|]. split; [reflexivity|].
      split; [reflexivity|]. split; [cbn; lia|]. split; [lia|].
      split; [right; split; reflexivity|]. repeat split; auto. discriminate. }
  match goal with |- context [on_rcvmore ?h] =>
    destruct (on_rcvmore h) as [more|] end; run.
  2:{ eexists _, _, [_; _; _; _], 1%nat, 1%nat. split; [reflexivity|].
      cbn [self history messageQue]. rewrite <- !app_assoc, Hq.
      repeat split; auto; try discriminate; cbn; lia. }
  destruct (more =? 0); run.
  { eexists _, _, [_; _; _; _], 1%nat, 1%nat. split; [reflexivity|].
    cbn [self history messageQue]. rewrite <- !app_assoc, Hq.
    repeat split; auto; try discriminate; cbn; lia. }
  match goal with |- context [sendout_loop n true ?t ?w1] =>
    destruct (IH true t w1)
      as (r & w' & evs & k & j & Hrun & Hh & Hs & Hp & Hpr & Hj & Hk & Hjk & _ & Hr & Hc)
  end.
  cbn [self history messageQue set_messageQue] in Hh, Hs, Hp, Hpr, Hj.
  rewrite Hq in Hs, Hp, Hpr, Hj. cbn [tail] in Hs, Hp, Hpr, Hj.
  exists r, w'. eexists (_ :: _ :: _ :: _ :: evs), (S k), (S j).
  split; [exact Hrun|]. rewrite Hh, <- !app_assoc, Hs. cbn. rewrite Hp, Hpr, Hr, Hc.
  repeat split; auto; try lia; try discriminate.
  destruct Hjk as [-> | [-> ->]]; [left; reflexivity | right; split; reflexivity].
Qed.

(** X14: whatever the transport does, one drain hands payloads to [send] in
    queue order, at most [MAX_CONSEQ_MESSAGES] of them, and changes nothing of
    the client object but the queue, from which it removes exactly the
    payloads whose [send] returned. A payload whose [send] throws is the last
    one handed over and stays at the head of the queue. The drain receives
    nothing, invokes no callback, and does nothing at all once [isWorking]
    is clear. *)
Theorem drain_pops_what_it_hands_over (lastHBSend : Z) (w : World) :
  exists r w' evs k j,
    workerSendoutMessages lastHBSend w = (r, w') /\
    history w' = history w ++ evs /\
    self w' = set_messageQue (drop j (messageQue (self w))) (self w) /\
    payload_sends evs = take k (messageQue (self w)) /\
    payloads_returned evs = take j (messageQue (self w)) /\
    (j <= length (messageQue (self w)))%nat /\
    (j <= k <= 10)%nat /\
    (j = k \/ k = S j /\ r = Raised) /\
    (isWorking (self w) = false -> evs = []) /\
    received evs = [] /\ callbacks evs = [].
Proof. exact (sendout_loop_conserves MAX_CONSEQ_MESSAGES false lastHBSend w). Qed.

Lemma sendout_loop_batch
    (Hsend : forall h m sndmore, on_send h m sndmore = Returns true)
    (Hmore : forall h, exists more, on_rcvmore h = Returns more /\ more <> 0)
    n : forall didWork lastHBSend w,
  isWorking (self w) = true ->
  exists lastHBSend' evs,
    sendout_loop n didWork lastHBSend w =
      (Returned (didWork || (negb (n =? 0)%nat && negb (length (messageQue (self w)) =? 0)%nat),
                 lastHBSend'),
       {| self := set_messageQue (drop n (messageQue (self w))) (self w);
          history := history w ++ evs |}) /\
    sent_parts evs = DATA_envelopes (take n (messageQue (self w))).
Proof.
  induction n as [|n IH]; intros didWork lastHBSend w Hw.
  { exists lastHBSend, []. rewrite app_nil_r, drop_0, set_messageQue_same, orb_false_r.
    destruct w; auto. }
  cbn [sendout_loop]. run.
  destruct (messageQue (self w)) as [|msg rest] eqn:Hq.
  { exists lastHBSend, []. rewrite app_nil_r, drop_nil, (set_messageQue_eq _ _ Hq), andb_false_r, orb_false_r.
    destruct w; auto. }
  rewrite Hw. run. rewrite Hsend. run. rewrite Hsend. run.
  match goal with |- context [on_rcvmore ?h] =>
    destruct (Hmore h) as (more & -> & Hne) end; run.
  apply Z.eqb_neq in Hne. rewrite Hne.
  match goal with |- context [sendout_loop n true ?t ?w1] =>
    destruct (IH true t w1) as (ls' & evs & Hrun & Hs) end.
  { exact Hw. }
  rewrite Hrun. clear Hrun.
  cbn [self history messageQue set_messageQue] in Hs |- *.
  rewrite Hq in Hs |- *. cbn [tail] in Hs |- *.
  exists ls'. eexists (_ :: _ :: _ :: _ :: evs).
  rewrite <- !app_assoc. cbn [orb length Nat.eqb negb andb]. rewrite orb_true_r.
  split; [reflexivity|]. cbn. rewrite Hs. reflexivity.
Qed.

(** X15: over a transport that accepts every part, and while [ZMQ_RCVMORE]
    keeps reading non-zero, one drain sends the first [MAX_CONSEQ_MESSAGES]
    queued payloads, each as a DATA envelope, removes exactly these from the
    queue, and reports work done whenever the queue was not empty. *)
Theorem drain_sends_up_to_ten (lastHBSend : Z) (w : World) :
  (forall h m sndmore, on_send h m sndmore = Returns true) ->
  (forall h, exists more, on_rcvmore h = Returns more /\ more <> 0) ->
  isWorking (self w) = true ->
  exists lastHBSend' evs,
    workerSendoutMessages lastHBSend w =
      (Returned (negb (length (messageQue (self w)) =? 0)%nat, lastHBSend'),
       {| self := set_messageQue (drop 10 (messageQue (self w))) (self w);
          history := history w ++ evs |}) /\
    sent_parts evs = DATA_envelopes (take 10 (messageQue (self w))).
Proof.
  intros Hsend Hmore Hw.
  exact (sendout_loop_batch Hsend Hmore MAX_CONSEQ_MESSAGES false lastHBSend w Hw).
Qed.

End DrainMore.

Lemma drain_pops_what_it_hands_over_witness :
  let run := @workerSendoutMessages x86_64_release broken_pipe 0 steady_exporter in
  fst run = Raised /\
  payload_sends (history (snd run)) = [hello] /\
  messageQue (self (snd run)) = [hello; world].
Proof.
  destruct (@drain_pops_what_it_hands_over x86_64_release broken_pipe 0 steady_exporter)
    as (r & w' & evs & k & j & Hrun & Hh & Hs & _ & Hpr & _).
  cbv zeta. rewrite Hrun. cbn [fst snd].
  vm_compute in Hrun. injection Hrun as <- <-.
  vm_compute in Hh. injection Hh as <-.
  destruct j; [|discriminate Hpr].
  split; [reflexivity|]. split; [reflexivity|]. reflexivity.
Defined.

Lemma drain_sends_up_to_ten_witness :
  exists lastHBSend' evs,
    @workerSendoutMessages x86_64_release accepting_peer 0 steady_exporter =
      (Returned (true, lastHBSend'),
       {| self := set_messageQue [] exporter_with_two;
          history := history steady_exporter ++ evs |}) /\
    sent_parts evs = @DATA_envelopes x86_64_release [hello; world].
Proof.
  apply (@drain_sends_up_to_ten x86_64_release accepting_peer 0 steady_exporter).
  - reflexivity.
  - intros h. exists 1. split; [reflexivity | lia].
  - reflexivity.
Defined.

(** ** The ping *)

Section Ping.
Context `{Platform} `{Environment}.



(** X16: a ping goes out only when more than [CLIENT_PING_INTERVAL] ms have
    passed since [lastHBSend]; otherwise nothing is done. When it is due the
    PING frame of the worker's role is handed to the transport with
    [ZMQ_SNDMORE], and what follows is decided by what [send] answers on it
    alone. Accepted: the empty part is sent, [lastHBSend] becomes the time
    read at the top of the branch and work is reported, whatever [send]
    returns on the empty part; only its throwing changes that. Refused: the
    empty part is not sent and [lastHBSend] and [didWork] stay. Thrown: the
    exception leaves the branch. The client object is left alone. *)
Theorem ping_cadence (now1 lastHBSend : Z) (didWork : bool) (w : World) :
  let ping := make (clientType (self w)) ControlMessage.PING_MSG in
  let h1 := history w ++ [EvSend ping true (Returns true)] in
  (duration_cast_milliseconds (now1 - lastHBSend) <= CLIENT_PING_INTERVAL ->
   ping_if_due now1 lastHBSend didWork w = (Returned (lastHBSend, didWork), w)) /\
  (duration_cast_milliseconds (now1 - lastHBSend) > CLIENT_PING_INTERVAL ->
   (forall sent,
      on_send (history w) ping true = Returns true ->
      on_send h1 emptyFrame false = Returns sent ->
      ping_if_due now1 lastHBSend didWork w =
        (Returned (now1, true),
         {| self := self w;
            history := history w ++ [EvSend ping true (Returns true);
                                     EvSend emptyFrame false (Returns sent)] |})) /\
   (on_send (history w) ping true = Returns true ->
    on_send h1 emptyFrame false = Throws ->
    ping_if_due now1 lastHBSend didWork w =
      (Raised,
       {| self := self w;
          history := history w ++ [EvSend ping true (Returns true);
                                   EvSend emptyFrame false Throws] |})) /\
   (on_send (history w) ping true = Returns false ->
    ping_if_due now1 lastHBSend didWork w =
      (Returned (lastHBSend, didWork),
       {| self := self w;
          history := history w ++ [EvSend ping true (Returns false)] |})) /\
   (on_send (history w) ping true = Throws ->
    ping_if_due now1 lastHBSend didWork w =
      (Raised,
       {| self := self w; history := history w ++ [EvSend ping true Throws] |}))).
Proof.
  intros ping h1. unfold ping_if_due. split; intros Hd.
  - destruct (Z.gtb_spec (duration_cast_milliseconds (now1 - lastHBSend))
                CLIENT_PING_INTERVAL); [lia|reflexivity].
  - destruct (Z.gtb_spec (duration_cast_milliseconds (now1 - lastHBSend))
                CLIENT_PING_INTERVAL); [|lia].
    run. fold ping. split; [|split; [|split]].
    + intros sent E1 E2. rewrite E1. run. fold h1. rewrite E2. run.
      unfold h1. rewrite <- app_assoc. reflexivity.
    + intros E1 E2. rewrite E1. run. fold h1. rewrite E2. run.
      unfold h1. rewrite <- app_assoc. reflexivity.
    + intros E1. rewrite E1. run. reflexivity.
    + intros E1. rewrite E1. run. reflexivity.
Qed.


End Ping.

Lemma ping_cadence_witness :
  @ping_if_due x86_64_release congested_peer 5000000000 0 false steady_heartbeat =
  (Returned (5000000000, true),
   {| self := self steady_heartbeat;
      history :=
        history steady_heartbeat
        ++ [EvSend (@make x86_64_release ClientType.Heartbeat ControlMessage.PING_MSG) true
              (Returns true);
            EvSend emptyFrame false (Returns false)] |}).
Proof.
  destruct (@ping_cadence x86_64_release congested_peer 5000000000 0 false steady_heartbeat)
    as (_ & Hdue).
  destruct Hdue as (Haccepted & _); [vm_compute; reflexivity|].
  apply (Haccepted false); reflexivity.
Defined.


(** ** The teardown over a transport that accepts everything *)

Lemma flush_queue_step (q : list message_t) (c : nat) (msg : message_t) :
  q !! c = Some msg ->
  take (S c) (<[c := []]> q) ++ replicate (length (<[c := []]> q) - S c) [] =
  take c q ++ replicate (length q - c) [].
Proof.
  intros Hc. pose proof (lookup_lt_Some _ _ _ Hc) as Hlt.
  rewrite length_insert.
  erewrite take_S_r by (apply list_lookup_insert_eq; exact Hlt).
  rewrite take_insert_ge by lia.
  rewrite <- app_assoc.
  replace (length q - c)%nat with (S (length q - S c)) by lia.
  reflexivity.
Qed.

Section Accepting.
Context `{Platform} `{Environment}.
Hypothesis Hsend : forall h m sndmore, on_send h m sndmore = Returns true.

Lemma flush_loop_accepting fuel : forall c w q q',
  messageQue (self w) = q ->
  (length q - c <= fuel)%nat ->
  q' = take c q ++ replicate (length q - c) [] ->
  exists evs,
    flush_loop fuel c w =
      (Returned tt, {| self := set_messageQue q' (self w); history := history w ++ evs |}) /\
    sent_parts evs = DATA_envelopes (drop c q) /\
    payload_sends evs = drop c q /\
    existsb is_close evs = false.
Proof.
  assert (Hdone : forall c w q q', messageQue (self w) = q -> q !! c = None ->
            q' = take c q ++ replicate (length q - c) [] ->
            (Returned tt, w) =
            (Returned tt, {| self := set_messageQue q' (self w);
                             history := history w ++ [] |}) /\
            sent_parts [] = DATA_envelopes (drop c q) /\
            payload_sends [] = drop c q /\
            existsb is_close [] = false).
  { intros c w q q' Hq Hc ->. apply lookup_ge_None in Hc.
    rewrite take_ge, drop_ge by lia.
    replace (length q - c)%nat with 0%nat by lia.
    cbn [replicate]. rewrite !app_nil_r, (set_messageQue_eq _ _ Hq).
    destruct w; auto. }
  induction fuel as [|fuel IH]; intros c w q q' Hq Hfuel Hq'; cbn [flush_loop]; run;
    rewrite Hq.
  - destruct (q !! c) as [msg|] eqn:Hc.
    + apply lookup_lt_Some in Hc. lia.
    + exists []. apply Hdone; assumption.
  - destruct (q !! c) as [msg|] eqn:Hc.
    2:{ exists []. apply Hdone; assumption. }
    pose proof (lookup_lt_Some _ _ _ Hc) as Hlt.
    rewrite Hsend. run. rewrite Hsend. run. rewrite Hq.
    match goal with |- context [flush_loop fuel (S c) ?w1] =>
      destruct (IH (S c) w1 _ q' eq_refl) as (evs & Hrun & Hs & Hp & Hcl) end.
    { cbn [self messageQue set_messageQue]. rewrite (length_insert q). lia. }
    { rewrite Hq'. symmetry. exact (flush_queue_step _ _ _ Hc). }
    cbn [self messageQue set_messageQue] in Hs, Hp.
    rewrite (drop_insert_lt q) in Hs, Hp by lia.
    exists (EvSend make_default true (Returns true)
            :: EvSend msg false (Returns true) :: evs).
    rewrite Hrun. cbn [self history]. rewrite <- !app_assoc. split; [reflexivity|].
    rewrite (drop_S _ _ _ Hc). cbn. rewrite Hs, Hp. auto.
Qed.

(** X18: with [flushOnExit] set and [serverStop] clear, over a transport
    that accepts every part, the teardown delivers the whole queue: after the
    send timeout is set to 200 ms every queued payload is handed over, in
    queue order, each behind a DATA frame, and the socket is then closed. The
    queue keeps its length, its messages emptied by the transport that took
    them. *)
Theorem flush_delivers_whole_queue (w : World) :
  serverStop (self w) = false ->
  flushOnExit (self w) = true ->
  on_setsockopt (history w) ZMQ_SNDTIMEO 200 = Returns tt ->
  exists evs closing,
    teardown w =
      (Returned tt,
       {| self := set_messageQue (replicate (length (messageQue (self w))) []) (self w);
          history :=
            history w ++ EvSetsockopt ZMQ_SNDTIMEO 200 (Returns tt) :: evs ++ closing |}) /\
    sent_parts evs = DATA_envelopes (messageQue (self w)) /\
    payload_sends evs = messageQue (self w) /\
    (closing = [] \/ closing = [EvClose]) /\
    (existsb is_close (history w) = false -> closing = [EvClose]).
Proof.
  intros Hstop Hflush Hopt. unfold teardown. run. rewrite Hstop, Hflush, Hopt. run.
  match goal with |- context [flush_loop ?n 0 ?w1] =>
    destruct (flush_loop_accepting n 0 w1 (messageQue (self w))
                (replicate (length (messageQue (self w))) []) eq_refl)
      as (evs & Hrun & Hs & Hp & Hcl) end.
  { lia. }
  { rewrite Nat.sub_0_r. reflexivity. }
  rewrite Hrun. rewrite drop_0 in Hs, Hp. cbn [self history].
  unfold socket_close. cbn [self history].
  match goal with |- context [existsb is_close ?h] =>
    destruct (existsb is_close h) eqn:Hclosed end.
  - exists evs, []. rewrite app_nil_r, <- !app_assoc. repeat split; auto.
    intros Hno. rewrite !existsb_app, Hno, Hcl in Hclosed. discriminate.
  - exists evs, [EvClose]. run. rewrite <- !app_assoc. repeat split; auto.
Qed.

(** X19: [stopServer()] called while the worker is in its steady loop is
    honoured at the next loop top: the loop ends without another poll,
    receive or payload, and over a transport that accepts everything the STOP
    envelope of the worker's role is all that is sent, after which
    [serverStop] is clear again and the queue is as the application left
    it. *)
Theorem stopServer_reaches_the_server (fuel : nat) (lastHBRecv lastHBSend : Z) (w : World) :
  on_facade (history w) = [OpStopServer] ->
  on_setsockopt (history w ++ [EvFacade [OpStopServer]]) ZMQ_SNDTIMEO 200 = Returns tt ->
  loop_then_teardown fuel lastHBRecv lastHBSend w =
    (Returned tt,
     {| self := set_serverStop false (stopServer (self w));
        history :=
          history w
          ++ [EvFacade [OpStopServer];
              EvSetsockopt ZMQ_SNDTIMEO 200 (Returns tt);
              EvSend (make (clientType (self w)) ControlMessage.STOP_MSG) true (Returns true);
              EvSend emptyFrame false (Returns true)] |}).
Proof.
  intros Hops Hopt. unfold loop_then_teardown.
  assert (Hloop : steady_loop fuel lastHBRecv lastHBSend w =
                  (Returned Next, {| self := stopServer (self w);
                                     history := history w ++ [EvFacade [OpStopServer]] |})).
  { destruct fuel; cbn [steady_loop]; unfold yield; run; rewrite Hops;
      cbn [facade_all facade]; run; reflexivity. }
  unfold bind at 1. rewrite Hloop. unfold teardown. run.
  cbn [stopServer set_isWorking set_serverStop serverStop clientType]. run.
  rewrite Hopt. run. rewrite !Hsend. run. rewrite <- !app_assoc. reflexivity.
Qed.

End Accepting.

Lemma flush_delivers_whole_queue_witness :
  exists evs,
    @teardown x86_64_release silent_peer flushing_exporter =
      (Returned tt,
       {| self := set_messageQue [[]; []] (self flushing_exporter);
          history :=
            history flushing_exporter
            ++ EvSetsockopt ZMQ_SNDTIMEO 200 (Returns tt) :: evs ++ [EvClose] |}) /\
    sent_parts evs = @DATA_envelopes x86_64_release [hello; world].
Proof.
  destruct (@flush_delivers_whole_queue x86_64_release silent_peer
              (fun _ _ _ => eq_refl) flushing_exporter eq_refl eq_refl eq_refl)
    as (evs & closing & Hrun & Hs & _ & _ & Hc).
  rewrite (Hc eq_refl) in Hrun. exists evs. split; [exact Hrun | exact Hs].
Defined.

Lemma stopServer_reaches_the_server_witness :
  sent_parts
    (history (snd (@loop_then_teardown x86_64_release friendly_server 0 0 0 idle_exporter))) =
  @STOP_envelope x86_64_release ClientType.Exporter.
Proof.
  rewrite (@stopServer_reaches_the_server x86_64_release friendly_server
             (fun _ _ _ => eq_refl) 0 0 0 idle_exporter eq_refl eq_refl).
  reflexivity.
Defined.

(** ** Waiting on the worker *)

Section Waiting.
Context `{Platform}.

Lemma duration_nonneg (d : Z) :
  0 < ticks_per_ms -> 0 <= d -> 0 <= duration_cast_milliseconds d.
Proof.
  intros Ht Hd. unfold duration_cast_milliseconds.
  rewrite Z.quot_div_nonneg by lia. apply Z.div_pos; lia.
Qed.

Lemma duration_at_least (d : Z) (n : nat) :
  0 < ticks_per_ms -> milliseconds (Z.of_nat n) <= d ->
  Z.of_nat n <= duration_cast_milliseconds d.
Proof.
  intros Ht Hd. unfold duration_cast_milliseconds, milliseconds in *.
  rewrite Z.quot_div_nonneg by nia.
  apply Z.div_le_lower_bound; lia.
Qed.

(** X20: a timeout of zero or less makes [waitForMessages] a single look at
    the queue: over a clock that does not run backwards the first turn of the
    loop decides, and the answer is whether the queue was found empty, at the
    first look or, with the worker alive, at that turn. *)
Theorem waitForMessages_does_not_wait (timeout : Z) (first : ZmqClient) (waitBegin : Z)
    (s : snapshot) (rest : list snapshot) :
  0 < ticks_per_ms ->
  timeout <= 0 ->
  waitBegin <= seen_at s ->
  waitForMessages timeout first waitBegin (s :: rest) =
  Some (queue_empty first || isWorking (seen s) && queue_empty (seen s)).
Proof.
  intros Ht Hto Hmono. unfold waitForMessages.
  destruct (queue_empty first); [reflexivity|].
  cbn [orb waitForMessages_loop].
  destruct (isWorking (seen s)); [|reflexivity].
  destruct (queue_empty (seen s)); [reflexivity|].
  pose proof (duration_nonneg (seen_at s - waitBegin) Ht ltac:(lia)).
  destruct (Z.geb_spec (duration_cast_milliseconds (seen_at s - waitBegin))
              (Z.min timeout 10000)); [reflexivity|lia].
Qed.

Lemma syncStop_wait_skip (stopBegin : Z) (before : list snapshot) (rest : list snapshot) :
  Forall (still_stopping stopBegin) before ->
  syncStop_wait stopBegin (before ++ rest) =
  option_map (Nat.add (length before)) (syncStop_wait stopBegin rest).
Proof.
  induction 1 as [|s before (Hs & Ht) _ IH]; cbn [app syncStop_wait length].
  - destruct (syncStop_wait stopBegin rest); reflexivity.
  - rewrite Hs.
    destruct (Z.gtb_spec (duration_cast_milliseconds (seen_at s - stopBegin)) 200); [lia|].
    rewrite IH. destruct (syncStop_wait stopBegin rest); reflexivity.
Qed.

Lemma syncStop_wait_ends (stopBegin : Z) (Ht : 0 < ticks_per_ms) :
  forall (turns : list snapshot) (k : nat),
    (k <= 201)%nat ->
    (201 < k + length turns)%nat ->
    (forall i s, turns !! i = Some s ->
                 milliseconds (Z.of_nat (k + i)) <= seen_at s - stopBegin) ->
    exists n, syncStop_wait stopBegin turns = Some n /\ (k + n <= 201)%nat.
Proof.
  induction turns as [|s turns IH]; intros k Hk Hlen Hclock; [cbn in Hlen; lia|].
  cbn [syncStop_wait].
  destruct (serverStop (seen s)); [|exists 0%nat; split; [reflexivity|lia]].
  destruct (Z.gtb_spec (duration_cast_milliseconds (seen_at s - stopBegin)) 200) as [|Hle];
    [exists 0%nat; split; [reflexivity|lia]|].
  pose proof (Hclock 0%nat s eq_refl) as Hs. rewrite Nat.add_0_r in Hs.
  pose proof (duration_at_least _ _ Ht Hs).
  destruct (IH (S k)) as (n & -> & Hn).
  - lia.
  - cbn [length] in Hlen. lia.
  - intros i s' Hi. specialize (Hclock (S i) s' Hi).
    replace (S k + i)%nat with (k + S i)%nat by lia. exact Hclock.
  - exists (S n). split; [reflexivity|lia].
Qed.

(** X21: the grace [syncStop] gives the worker to send STOP. Without
    [serverStop] set there is none; the wait goes on, one 1 ms sleep a turn,
    while [serverStop] is set and no more than 200 ms have passed, and ends at
    the first turn that finds [serverStop] cleared by the worker; and when
    every sleep lasts at least its millisecond the wait does end, after 201
    sleeps at most, whether or not the worker has answered. *)
Theorem syncStop_grace_is_bounded (first : ZmqClient) (stopBegin : Z) :
  (serverStop first = false ->
   forall turns, syncStop_grace first stopBegin turns = Some 0%nat) /\
  (serverStop first = true ->
   forall before s after,
     Forall (still_stopping stopBegin) before ->
     serverStop (seen s) = false ->
     syncStop_grace first stopBegin (before ++ s :: after) = Some (length before)) /\
  (0 < ticks_per_ms ->
   forall turns,
     (201 < length turns)%nat ->
     (forall i s, turns !! i = Some s ->
                  milliseconds (Z.of_nat i) <= seen_at s - stopBegin) ->
     exists n, syncStop_grace first stopBegin turns = Some n /\ (n <= 201)%nat).
Proof.
  unfold syncStop_grace. split; [|split].
  - intros ->. reflexivity.
  - intros -> before s after Hbefore Hs.
    rewrite (syncStop_wait_skip _ _ _ Hbefore). cbn [syncStop_wait]. rewrite Hs.
    cbn. f_equal. lia.
  - intros Ht turns Hlen Hclock.
    destruct (serverStop first); [|exists 0%nat; split; [reflexivity|lia]].
    destruct (syncStop_wait_ends stopBegin Ht turns 0) as (n & Hrun & Hn);
      [lia | lia | exact Hclock |].
    exists n. split; [exact Hrun | lia].
Qed.

End Waiting.

(** ** The older ZmqWrapper *)

(** X22: what the padding of lines 63-67 does to a queued message. The
    message sent has at least two bytes and begins with the bytes queued; a
    message of two bytes or more is sent as it is; whatever is sent is
    propagated by the receive path of lines 97-105, while the one-byte
    keepalive is not when [VRAY_ZMQ_PING] is defined. The padding loses the
    length: the empty message is sent as the very bytes some two-byte message
    is. *)
Theorem wrap_small_protects_payloads (fresh : list byte) (msg : message_t) :
  length fresh = 2%nat ->
  (2 <= length (wrap_small fresh msg))%nat /\
  take (length msg) (wrap_small fresh msg) = msg /\
  ((2 <= length msg)%nat -> wrap_small fresh msg = msg) /\
  (forall VRAY_ZMQ_PING, propagateMessage VRAY_ZMQ_PING (wrap_small fresh msg) = true) /\
  (forall b, propagateMessage true (keepAlive b) = false) /\
  wrap_small fresh [] = wrap_small fresh fresh.
Proof.
  intros Hfresh. unfold wrap_small, propagateMessage, keepAlive.
  assert (Hlen : (2 <= length (if (length msg <=? 1)%nat
                               then msg ++ drop (length msg) fresh else msg))%nat).
  { destruct (Nat.leb_spec (length msg) 1); [|lia].
    rewrite length_app, length_drop. lia. }
  split; [exact Hlen|]. split; [|split; [|split; [|split]]].
  - destruct (length msg <=? 1)%nat.
    + rewrite take_app_length. reflexivity.
    + apply take_ge. lia.
  - intros H2. destruct (Nat.leb_spec (length msg) 1); [lia|reflexivity].
  - intros [|]; [|reflexivity]. apply Nat.ltb_lt. exact Hlen.
  - reflexivity.
  - destruct fresh as [|a [|b [|]]]; try discriminate. reflexivity.
Qed.

(** ** The queue between the application and the worker *)

Lemma sends_append (ps : list message_t) : forall c,
  fold_left (fun c p => send p c) ps c = set_messageQue (messageQue c ++ ps) c.
Proof.
  induction ps as [|p ps IH]; intros c; cbn [fold_left].
  - rewrite app_nil_r. symmetry. apply set_messageQue_same.
  - rewrite IH. unfold send. cbn [messageQue set_messageQue].
    rewrite <- app_assoc. reflexivity.
Qed.

Section Queue.
Context `{Platform} `{Environment}.

Lemma facade_all_sends (ps : list message_t) : forall w,
  facade_all (map OpSend ps) w =
  (Returned tt, {| self := fold_left (fun c p => send p c) ps (self w);
                   history := history w |}).
Proof.
  induction ps as [|p ps IH]; intros w; cbn [map facade_all facade fold_left].
  - destruct w; reflexivity.
  - run. rewrite IH. reflexivity.
Qed.

(** X23: [send] only queues. Any number of calls made while the worker is
    busy append their messages to the queue in call order, behind what was
    already waiting; [getOutstandingMessages] grows by their number; no
    transport call is made on the caller's thread and [good()],
    [connected()], the role and the stop flags are as before. The next drain
    therefore hands the transport the oldest message first. *)
Theorem send_only_queues (ps : list message_t) (w : World) :
  exists c',
    facade_all (map OpSend ps) w = (Returned tt, {| self := c'; history := history w |}) /\
    messageQue c' = messageQue (self w) ++ ps /\
    getOutstandingMessages c' = getOutstandingMessages (self w) + Z.of_nat (length ps) /\
    good c' = good (self w) /\
    connected c' = connected (self w) /\
    clientType c' = clientType (self w) /\
    serverStop c' = serverStop (self w) /\
    flushOnExit c' = flushOnExit (self w) /\
    (forall lastHBSend msg rest,
       messageQue (self w) ++ ps = msg :: rest ->
       exists r w' evs,
         workerSendoutMessages lastHBSend {| self := c'; history := history w |} = (r, w') /\
         history w' = history w ++ evs /\
         (payload_sends evs = [] \/ exists more, payload_sends evs = msg :: more)).
Proof.
  exists (set_messageQue (messageQue (self w) ++ ps) (self w)).
  rewrite facade_all_sends, sends_append.
  unfold getOutstandingMessages, good, connected. cbn [messageQue set_messageQue
    isWorking startServing errorConnect clientType serverStop flushOnExit].
  rewrite length_app, Nat2Z.inj_add.
  repeat split; auto.
  intros lastHBSend msg rest Hq.
  match goal with |- context [workerSendoutMessages _ ?w1] =>
    destruct (sendout_loop_conserves MAX_CONSEQ_MESSAGES false lastHBSend w1)
      as (r & w' & evs & k & j & Hrun & Hh & _ & Hp & _) end.
  exists r, w', evs. split; [exact Hrun|]. split; [exact Hh|].
  cbn [self messageQue set_messageQue] in Hp. rewrite Hq in Hp.
  destruct k; [left|right; exists (take k rest)]; exact Hp.
Qed.

End Queue.

Lemma waitForMessages_does_not_wait_witness :
  @waitForMessages x86_64_release 0 exporter_with_two 0
    [{| seen := exporter_with_two; seen_at := 5 |}] = Some false.
Proof.
  apply (@waitForMessages_does_not_wait x86_64_release 0 exporter_with_two 0
           {| seen := exporter_with_two; seen_at := 5 |} []); [reflexivity|lia|simpl; lia].
Defined.

Lemma syncStop_grace_is_bounded_witness :
  exists n,
    @syncStop_grace x86_64_release (stopServer exporter_with_two) 0 unanswered_stop
    = Some n /\
    (n <= 201)%nat.
Proof.
  apply (@syncStop_grace_is_bounded x86_64_release (stopServer exporter_with_two) 0).
  - reflexivity.
  - vm_compute. lia.
  - intros i s Hi. unfold unanswered_stop in Hi.
    apply list_lookup_fmap_Some in Hi as (j & -> & Hj).
    apply lookup_seq in Hj as [-> _].
    change (Z.of_nat i * 1000000 <= Z.of_nat (0 + i) * 1000000 - 0). lia.
Defined.

Lemma wrap_small_protects_payloads_witness :
  wrap_small [x00; x00] [] = [x00; x00] /\
  propagateMessage true (wrap_small [x00; x00] []) = true.
Proof.
  destruct (wrap_small_protects_payloads [x00; x00] [] eq_refl)
    as (_ & _ & _ & Hp & _ & _).
  split; [reflexivity | exact (Hp true)].
Defined.

(** ** An idle iteration *)

Section Idle.
Context `{Platform} `{Environment}.

(** X24: an iteration whose poll reports the socket neither readable nor
    writable, in a worker that is still wanted and whose liveness check
    passes, costs one reading of the clock, one poll and one sleep of 1 ms:
    nothing is sent or received, both timers stay as they were and the client
    object is left alone. *)
Theorem idle_iteration_sleeps (lastHBRecv lastHBSend : Z) (w : World) (revents : Z) :
  let now0 := on_now (history w) in
  on_poll (history w ++ [EvNow now0]) = Returns revents ->
  Z.land revents ZMQ_POLLIN = 0 ->
  Z.land revents ZMQ_POLLOUT = 0 ->
  isWorking (self w) = true ->
  clientType (self w) = ClientType.Exporter \/
  duration_cast_milliseconds (now0 - lastHBRecv) <= HEARBEAT_TIMEOUT ->
  steady_iteration lastHBRecv lastHBSend w =
    (Returned (Some (lastHBRecv, lastHBSend)),
     {| self := self w;
        history := history w ++ [EvNow now0; EvPoll (Returns revents); EvSleep 1] |}).
Proof.
  intros now0 Hpoll Hin Hout Hw Hlive. subst now0.
  unfold steady_iteration, steady_work. run.
  rewrite Hpoll. run. rewrite Hin, Hout. change (0 =? 0) with true. run.
  cbn [t_now t_lastHBRecv t_lastHBSend t_didWork].
  assert (Hcheck : ClientType.eqb (clientType (self w)) ClientType.Heartbeat
                   && (duration_cast_milliseconds (on_now (history w) - lastHBRecv)
                       >? HEARBEAT_TIMEOUT)
                   = false).
  { destruct Hlive as [-> | Hle]; [reflexivity|].
    destruct (Z.gtb_spec (duration_cast_milliseconds (on_now (history w) - lastHBRecv))
                HEARBEAT_TIMEOUT); [lia|]. apply andb_false_r. }
  rewrite Hcheck. run. rewrite Hw. cbn [andb]. run.
  rewrite <- !app_assoc. reflexivity.
Qed.

End Idle.

Lemma idle_iteration_sleeps_witness :
  @steady_iteration x86_64_release quiet_socket 0 0 steady_exporter =
  (Returned (Some (0, 0)),
   {| self := self steady_exporter;
      history := history steady_exporter
                 ++ [EvNow 1000000; EvPoll (Returns 0); EvSleep 1] |}).
Proof.
  apply (@idle_iteration_sleeps x86_64_release quiet_socket 0 0 steady_exporter 0).
  - reflexivity.
  - reflexivity.
  - reflexivity.
  - reflexivity.
  - left. reflexivity.
Defined.
